(** * Rule inspector: relationship resolution, chat context building,
      response rendering, scroll timing and search navigation.

    A shallow embedding of the rule chat popup ([RuleChatPopup]) and of the
    raw JSON viewer ([RuleJsonPopup]), with the properties of their
    specification stated and proved over it. *)

From Stdlib Require Import String Ascii List Bool Arith NArith ZArith QArith Lia.
From Stdlib Require Import Sorted Lqa DecimalNat.
Import ListNotations.
Close Scope Q_scope.

(** ** JavaScript strings

    A JavaScript string is a sequence of UTF-16 code units.  Literals of the
    source that are plain ASCII are written with [lit]. *)

Module Js.

Definition char : Type := N.
Definition str : Type := list char.

Definition lit (s : string) : str := map N_of_ascii (list_ascii_of_string s).

Definition LF : char := 10%N.
Definition CR : char := 13%N.
(** U+2022, the bullet character of the source. *)
Definition BULLET : char := 8226%N.

Fixpoint eqb (a b : str) : bool :=
  match a, b with
  | [], [] => true
  | x :: a', y :: b' => N.eqb x y && eqb a' b'
  | _, _ => false
  end.

(** Truthiness of a string: the empty string is falsy. *)
Definition truthy (s : str) : bool :=
  match s with [] => false | _ :: _ => true end.

(** [a || b] on strings. *)
Definition or_else (a b : str) : str := if truthy a then a else b.

(** [x || b] where [x] may be [undefined]. *)
Definition opt_or (x : option str) (b : str) : str :=
  match x with Some a => or_else a b | None => b end.

(** WhiteSpace and LineTerminator code units, as used by [trim] and by the
    regular expression class [\s]. *)
Definition isWhiteSpace (c : char) : bool :=
  ((9 <=? c) && (c <=? 13) || (c =? 32) || (c =? 160) || (c =? 5760)
   || ((8192 <=? c) && (c <=? 8202)) || (c =? 8232) || (c =? 8233)
   || (c =? 8239) || (c =? 8287) || (c =? 12288) || (c =? 65279))%N.

Fixpoint trimStart (s : str) : str :=
  match s with
  | [] => []
  | c :: s' => if isWhiteSpace c then trimStart s' else s
  end.

Definition trimEnd (s : str) : str := rev (trimStart (rev s)).

Definition trim (s : str) : str := trimEnd (trimStart s).

Fixpoint startsWith (s p : str) : bool :=
  match p, s with
  | [], _ => true
  | x :: p', y :: s' => N.eqb x y && startsWith s' p'
  | _ :: _, [] => false
  end.

(** [s.split(sep)] for a separator that matches exactly one code unit (a
    one-character string, or a regular expression such as [/\n|\r/]). *)
Fixpoint split_on (sep : char -> bool) (s : str) : list str :=
  match s with
  | [] => [[]]
  | c :: s' =>
      if sep c then [] :: split_on sep s'
      else match split_on sep s' with
           | [] => [[c]]
           | x :: xs => (c :: x) :: xs
           end
  end.

(** [s.split(/\r?\n/)]. *)
Fixpoint split_lines (s : str) : list str :=
  match s with
  | [] => [[]]
  | c :: s' =>
      let push := match split_lines s' with
                  | [] => [[c]]
                  | x :: xs => (c :: x) :: xs
                  end in
      if N.eqb c LF then [] :: split_lines s'
      else match s' with
           | d :: s'' =>
               if N.eqb c CR && N.eqb d LF then [] :: split_lines s'' else push
           | [] => push
           end
  end.

(** [xs.join(sep)]; an [undefined] element is rendered as the empty string. *)
Fixpoint join (sep : str) (xs : list (option str)) : str :=
  match xs with
  | [] => []
  | [x] => match x with Some s => s | None => [] end
  | x :: rest => match x with Some s => s | None => [] end ++ sep ++ join sep rest
  end.

(** [xs.includes(x)] on an array of strings. *)
Definition includes (x : str) (xs : list str) : bool := existsb (eqb x) xs.

(** [s.includes(c)] for a one-character needle. *)
Definition includes_char (c : char) (s : str) : bool := existsb (N.eqb c) s.

Definition digit (d : nat) : char := (48 + N.of_nat d)%N.

Fixpoint of_uint (u : Decimal.uint) : str :=
  match u with
  | Decimal.Nil => []
  | Decimal.D0 u' => digit 0 :: of_uint u'
  | Decimal.D1 u' => digit 1 :: of_uint u'
  | Decimal.D2 u' => digit 2 :: of_uint u'
  | Decimal.D3 u' => digit 3 :: of_uint u'
  | Decimal.D4 u' => digit 4 :: of_uint u'
  | Decimal.D5 u' => digit 5 :: of_uint u'
  | Decimal.D6 u' => digit 6 :: of_uint u'
  | Decimal.D7 u' => digit 7 :: of_uint u'
  | Decimal.D8 u' => digit 8 :: of_uint u'
  | Decimal.D9 u' => digit 9 :: of_uint u'
  end.

(** [String(n)] for a non-negative integer. *)
Definition ofNat (n : nat) : str := of_uint (Nat.to_uint n).

(** [String(z)] for an integer. *)
Definition ofZ (z : Z) : str :=
  match z with
  | Z0 => lit "0"
  | Zpos p => of_uint (Pos.to_uint p)
  | Zneg p => lit "-" ++ of_uint (Pos.to_uint p)
  end.

Definition eq_dec (a b : str) : {a = b} + {a <> b} := list_eq_dec N.eq_dec a b.

End Js.

(** ** Exceptions

    A computation either returns a value or throws.  The source never
    inspects the thrown value ([catch (e)] ignores [e]), so [Throw] carries
    none. *)

Inductive result (A : Type) : Type :=
| Ok (a : A)
| Throw.

Arguments Ok {A} a.
Arguments Throw {A}.

Definition bind {A B : Type} (m : result A) (f : A -> result B) : result B :=
  match m with
  | Ok a => f a
  | Throw => Throw
  end.

Notation "x <- m ;; k" := (bind m (fun x => k))
  (at level 61, m at next level, right associativity).

(** [try { body } catch (e) { handler }]. *)
Definition try_catch {A : Type} (body handler : result A) : result A :=
  match body with
  | Ok a => Ok a
  | Throw => handler
  end.

(** ** The rule chat popup ([RuleChatPopup]) *)

Module Chat.
Import Js.

(** *** Data *)

Unset Elimination Schemes.
Inductive JsonValue : Type :=
| JNull
| JBool (b : bool)
| JNumber (z : Z)
| JString (s : str)
| JArray (xs : list JsonValue)
| JObject (fields : list (str * JsonValue)).
Set Elimination Schemes.

(** A rule: the properties the component reads ([id], [name], [Name]; [None]
    is [undefined]) and the rest of its JSON payload. *)
Record Rule : Type := mkRule {
  id : option str;
  name : option str;
  Name : option str;
  Statement : JsonValue
}.

(** An edge; [source] and [target] are stringified positions in the rule
    list. *)
Record Edge : Type := mkEdge {
  source : str;
  target : str
}.

Inductive Sender : Type := user | ai.

Record Message : Type := mkMessage {
  sender : Sender;
  text : str
}.

Inductive ResponseStyle : Type :=
| concise | detailed | table | bullet | human | json.

Inductive ScrollSpeed : Type :=
| slow | normal | fast | instant | none.

Record Props : Type := mkProps {
  rule : option Rule;
  allRules : option (list Rule);   (* [None]: not an array *)
  edges : list Edge;
  isAIPage : bool
}.

Record State : Type := mkState {
  messages : list Message;
  input : str;
  loading : bool;
  responseStyle : ResponseStyle;
  seeAllRules : bool;
  scrollSpeed : ScrollSpeed
}.

Definition sender_eqb (a b : Sender) : bool :=
  match a, b with
  | user, user | ai, ai => true
  | _, _ => false
  end.

Definition greetingRule : str :=
  lit "Hi! Ask me anything about this rule and I will help you understand or improve it.".

Definition greetingGeneral : str :=
  lit "Hi! Ask me anything about your WAF rules and I will help you understand, analyze, or improve them.".

Definition apologyText : str :=
  lit "Sorry, I could not get a response from the AI.".

Definition initialState : State :=
  {| messages := [ {| sender := ai; text := greetingRule |} ];
     input := [];
     loading := false;
     responseStyle := concise;
     seeAllRules := false;
     scrollSpeed := normal |}.

Definition setMessages (f : list Message -> list Message) (s : State) : State :=
  {| messages := f (messages s); input := input s; loading := loading s;
     responseStyle := responseStyle s; seeAllRules := seeAllRules s;
     scrollSpeed := scrollSpeed s |}.

Definition setInput (v : str) (s : State) : State :=
  {| messages := messages s; input := v; loading := loading s;
     responseStyle := responseStyle s; seeAllRules := seeAllRules s;
     scrollSpeed := scrollSpeed s |}.

Definition setLoading (v : bool) (s : State) : State :=
  {| messages := messages s; input := input s; loading := v;
     responseStyle := responseStyle s; seeAllRules := seeAllRules s;
     scrollSpeed := scrollSpeed s |}.

Definition setResponseStyle (v : ResponseStyle) (s : State) : State :=
  {| messages := messages s; input := input s; loading := loading s;
     responseStyle := v; seeAllRules := seeAllRules s;
     scrollSpeed := scrollSpeed s |}.

Definition setSeeAllRules (v : bool) (s : State) : State :=
  {| messages := messages s; input := input s; loading := loading s;
     responseStyle := responseStyle s; seeAllRules := v;
     scrollSpeed := scrollSpeed s |}.

Definition setScrollSpeed (v : ScrollSpeed) (s : State) : State :=
  {| messages := messages s; input := input s; loading := loading s;
     responseStyle := responseStyle s; seeAllRules := seeAllRules s;
     scrollSpeed := v |}.

(** [msgs => [...msgs, m]]. *)
Definition append (m : Message) (msgs : list Message) : list Message :=
  msgs ++ [m].

Definition Edge_eq_dec (a b : Edge) : {a = b} + {a <> b}.
Proof. decide equality; apply Js.eq_dec. Defined.

(** *** Relationship resolution *)

(** [String(rule?.id || '')]. *)
Definition ruleId (p : Props) : str :=
  match rule p with
  | Some r => opt_or (id r) []
  | None => []
  end.

Definition parentIds (p : Props) : list str :=
  map source (filter (fun e => eqb (target e) (ruleId p)) (edges p)).

Definition childIds (p : Props) : list str :=
  map target (filter (fun e => eqb (source e) (ruleId p)) (edges p)).

(** [xs.filter((r, index) => f(r, index))], keeping each kept element's
    position. *)
Definition filter_indexed {A : Type} (f : A -> nat -> bool) (xs : list A)
  : list (nat * A) :=
  filter (fun ix => f (snd ix) (fst ix)) (combine (seq 0 (length xs)) xs).

Definition array_filter {A : Type} (f : A -> nat -> bool) (xs : list A)
  : list A :=
  map snd (filter_indexed f xs).

(** [allRules || []]. *)
Definition rulesOrEmpty (p : Props) : list Rule :=
  match allRules p with
  | Some rs => rs
  | None => []
  end.

Definition parentRules (p : Props) : list Rule :=
  array_filter (fun _ index => includes (ofNat index) (parentIds p))
               (rulesOrEmpty p).

Definition childRules (p : Props) : list Rule :=
  array_filter (fun _ index => includes (ofNat index) (childIds p))
               (rulesOrEmpty p).

(** Positions, in the rule list, of the rules of [parentRules]. *)
Definition parentPositions (p : Props) : list nat :=
  map fst (filter_indexed
             (fun (_ : Rule) index => includes (ofNat index) (parentIds p))
             (rulesOrEmpty p)).

Definition parentNames (p : Props) : str :=
  or_else (join (lit ", ") (map Name (parentRules p))) (lit "None").

Definition childNames (p : Props) : str :=
  or_else (join (lit ", ") (map Name (childRules p))) (lit "None").

(** *** Scroll timing *)

Inductive ScrollAction : Type :=
| JumpToBottom
| Animate (duration : Z).

Fixpoint lastMessage (msgs : list Message) : option Message :=
  match msgs with
  | [] => None
  | [m] => Some m
  | _ :: rest => lastMessage rest
  end.

(** [lastMessage?.text?.length || 0]. *)
Definition responseLength (msgs : list Message) : Z :=
  match lastMessage msgs with
  | Some m => Z.of_nat (length (text m))
  | None => 0%Z
  end.

(** The object literal of [scrollToBottom]; [None] for a missing key. *)
Definition durationTable (v : ScrollSpeed) : option Z :=
  match v with
  | slow => Some 24%Z
  | normal => Some 12%Z
  | fast => Some 8%Z
  | instant => Some 0%Z
  | none => None
  end.

(** [{...}[scrollSpeed] || 12.0]: a missing entry and the entry 0 are both
    falsy. *)
Definition baseDurationPerChar (v : ScrollSpeed) : Z :=
  match durationTable v with
  | Some k => if Z.eqb k 0 then 12%Z else k
  | None => 12%Z
  end.

Definition scrollDuration (v : ScrollSpeed) (len : Z) : Z :=
  match v with
  | instant => 0%Z
  | _ => Z.max 8000 (len * baseDurationPerChar v)
  end.

(** [scrollToBottom]; [mounted] says that [messagesEndRef.current] is set.
    [None]: nothing is scrolled. *)
Definition scrollToBottom (mounted : bool) (s : State) : option ScrollAction :=
  match scrollSpeed s with
  | none => None
  | v =>
      if mounted then
        let d := scrollDuration v (responseLength (messages s)) in
        Some (if Z.eqb d 0 then JumpToBottom else Animate d)
      else None
  end.

(** *** Building the completion request *)

(** The style table of the source. *)
Definition styleInstructions (v : ResponseStyle) : str :=
  match v with
  | concise => lit "Summarize each rule briefly."
  | detailed => lit "Provide a detailed, step-by-step explanation for each rule."
  | table => lit "Return your answer as a markdown table, no extra text."
  | bullet => lit "Return your answer as a list of bullet points, one per line, no extra text."
  | human => lit "Explain the rules in simple, non-technical language."
  | json => lit "Return only a JSON object as specified."
  end.

Definition isDigit (c : char) : bool := ((48 <=? c) && (c <=? 57))%N.

Fixpoint parseDigits (acc : Z) (s : str) : Z :=
  match s with
  | c :: s' =>
      if isDigit c then parseDigits (10 * acc + Z.of_N (c - 48)) s' else acc
  | [] => acc
  end.

(** [parseInt(s, 10)]; [None] is [NaN].  Exact for results below 2^53. *)
Definition parseInt (s : str) : option Z :=
  let s1 := trimStart s in
  let signed :=
    match s1 with
    | c :: r => if N.eqb c 45 then (true, r)
                else if N.eqb c 43 then (false, r) else (false, s1)
    | [] => (false, [])
    end in
  match snd signed with
  | c :: _ =>
      if isDigit c
      then Some (if fst signed then (- parseDigits 0 (snd signed))%Z
                 else parseDigits 0 (snd signed))
      else None
  | [] => None
  end.

(** The rendering of [parseInt(rule.id, 10) + 1] inside a template. *)
Definition displayNumber (s : str) : str :=
  match parseInt s with
  | Some n => ofZ (n + 1)
  | None => lit "NaN"
  end.

Definition generalInfo : str :=
  lit "The user is asking about their WAF rules in general.".

(** [rule?.id] is truthy. *)
Definition focused (p : Props) : option (Rule * str) :=
  match rule p with
  | Some r =>
      match id r with
      | Some i => if truthy i then Some (r, i) else None
      | None => None
      end
  | None => None
  end.

Definition currentRuleInfo (p : Props) : str :=
  match focused p with
  | Some (r, i) =>
      lit "The user is currently focused on rule #" ++ displayNumber i
      ++ lit ": " ++ opt_or (name r) (opt_or (Name r) (lit "Unknown Rule"))
  | None => generalInfo
  end.

Definition dependencyInfo (p : Props) : str :=
  lit "Parent rules: " ++ parentNames p ++ lit ". Child rules: "
  ++ childNames p
  ++ lit ". When asked about dependencies, always use the provided parent and child rule information, not your own analysis.".

Definition relationshipInstruction : str :=
  LF :: lit "If the user asks about the relationship between the current rule and another rule, check if that rule is listed as a parent or child. If it is a child, say 'rule-X is a child of rule-Y.' If it is a parent, say 'rule-X is a parent of rule-Y.' If it is not in either list, say there is no direct relationship.".

Definition systemPrompt (p : Props) (s : State) : str :=
  lit "You are an expert in AWS WAF rules. The user will ask questions about their WAF rules. Always answer clearly and concisely, using the rule JSON provided. If the user asks for improvements, suggest best practices. Style: "
  ++ or_else (styleInstructions (responseStyle s)) (styleInstructions concise)
  ++ [LF] ++ currentRuleInfo p ++ [LF] ++ dependencyInfo p
  ++ relationshipInstruction.

Inductive Role : Type := role_system | role_user | role_assistant.

Record ChatMessage : Type := mkChatMessage {
  role : Role;
  content : str
}.

Record Request : Type := mkRequest {
  model : str;
  request_messages : list ChatMessage;
  temperature : Q
}.

(** The completion: each choice carries the text of its message, or no
    message at all. *)
Record Choice : Type := mkChoice { message : option str }.

Record Response : Type := mkResponse { choices : list Choice }.

(** How the promise of [openai.chat.completions.create] settles. *)
Inductive Outcome : Type :=
| Fulfilled (r : Response)
| Rejected.

Definition await (o : Outcome) : result Response :=
  match o with
  | Fulfilled r => Ok r
  | Rejected => Throw
  end.

(** [response.choices[0].message.content]. *)
Definition firstContent (r : Response) : result str :=
  match choices r with
  | c :: _ => match message c with Some t => Ok t | None => Throw end
  | [] => Throw
  end.

(** [seeAllRules && Array.isArray(allRules) ? allRules : [rule]]. *)
Definition contextRules (p : Props) (s : State) : list (option Rule) :=
  match seeAllRules s, allRules p with
  | true, Some rs => map Some rs
  | _, _ => [rule p]
  end.

(** The predicate of the filter over the previous messages. *)
Definition forwarded (p : Props) (s : State) (m : Message) : bool :=
  negb (sender_eqb (sender m) ai) || negb (eqb (text m) (systemPrompt p s)).

Definition toChatMessage (m : Message) : ChatMessage :=
  {| role := match sender m with user => role_user | ai => role_assistant end;
     content := text m |}.

(** [!input.trim()]. *)
Definition blank (v : str) : bool := negb (truthy (trim v)).

(** A suspended [sendMessage]: either it has returned, or it waits at the
    [await] for the request [req] to settle; [k] resumes it on the state
    current at that time (the state setters take updater functions). *)
Inductive Async : Type :=
| Return (s : State)
| Await (s : State) (req : Request) (k : Outcome -> State -> result State).

Section Environment.

(** [JSON.stringify(value, null, 2)]. *)
Variable JSON_stringify : list (option Rule) -> str.

(** [import.meta.env.VITE_REACT_APP_OPENAI_API_KEY]. *)
Variable apiKey : option str.

(** [new OpenAI({ apiKey, ... })] throws when no key is configured. *)
Definition newOpenAI : result str :=
  match apiKey with
  | Some k => Ok k
  | None => Throw
  end.

Definition chatHistory (p : Props) (s : State) : list ChatMessage :=
  [ {| role := role_system; content := systemPrompt p s |};
    {| role := role_user;
       content := lit "Rule JSON: " ++ JSON_stringify (contextRules p s) |} ]
  ++ map toChatMessage (filter (forwarded p s) (messages s))
  ++ [ {| role := role_user; content := input s |} ].

Definition completionRequest (p : Props) (s : State) : Request :=
  {| model := lit "gpt-4o-mini";
     request_messages := chatHistory p s;
     temperature := (3 # 10)%Q |}.

(** The part of [sendMessage] after the [await], run on the state [cur]. *)
Definition sendMessage_resume (o : Outcome) (cur : State) : result State :=
  cur' <- try_catch
            (response <- await o ;;
             aiText <- firstContent response ;;
             Ok (setMessages (append {| sender := ai; text := aiText |}) cur))
            (Ok (setMessages (append {| sender := ai; text := apologyText |}) cur)) ;;
  Ok (setLoading false cur').

Definition sendMessage (p : Props) (s : State) : result Async :=
  if blank (input s) then Ok (Return s)
  else
    let userMsg := {| sender := user; text := input s |} in
    let s1 := setInput [] (setLoading true (setMessages (append userMsg) s)) in
    try_catch
      (_ <- newOpenAI ;;
       Ok (Await s1 (completionRequest p s) sendMessage_resume))
      (Ok (Return
             (setLoading false
                (setMessages (append {| sender := ai; text := apologyText |}) s1)))).

Definition handleStyleChange (p : Props) (v : ResponseStyle) (s : State) : State :=
  let greeting :=
    if isAIPage p then greetingGeneral
    else match focused p with
         | Some _ => greetingRule
         | None => greetingGeneral
         end in
  setInput []
    (setMessages (fun _ => [ {| sender := ai; text := greeting |} ])
       (setResponseStyle v s)).

(** *** The component and the gateway as a transition system *)

Record Pending : Type := mkPending {
  request : Request;
  resume : Outcome -> State -> result State
}.

Record World : Type := mkWorld {
  ui : State;
  inflight : list Pending;   (* requests issued and not yet settled *)
  issued : list Request;     (* every request ever handed to the gateway *)
  uncaught : nat             (* errors that escaped [sendMessage] *)
}.

Inductive Event : Type :=
| KeyDownEnter
| ClickSend
| ChangeInput (v : str)
| StyleChange (v : ResponseStyle)
| SeeAllRulesChange (v : bool)
| ScrollSpeedChange (v : ScrollSpeed)
| Settle (o : Outcome).

Definition initialWorld : World :=
  {| ui := initialState; inflight := []; issued := []; uncaught := 0 |}.

Definition withUi (w : World) (s : State) : World :=
  {| ui := s; inflight := inflight w; issued := issued w;
     uncaught := uncaught w |}.

Definition callSendMessage (p : Props) (w : World) : World :=
  match sendMessage p (ui w) with
  | Ok (Return s) => withUi w s
  | Ok (Await s req k) =>
      {| ui := s;
         inflight := inflight w ++ [ {| request := req; resume := k |} ];
         issued := issued w ++ [req];
         uncaught := uncaught w |}
  | Throw =>
      {| ui := ui w; inflight := inflight w; issued := issued w;
         uncaught := S (uncaught w) |}
  end.

(** [disabled={loading || !input.trim()}] of the Send button. *)
Definition sendDisabled (s : State) : bool := loading s || blank (input s).

Definition step (p : Props) (w : World) (e : Event) : World :=
  match e with
  | KeyDownEnter =>
      (* e.key === 'Enter' && !loading && sendMessage() *)
      if negb (loading (ui w)) then callSendMessage p w else w
  | ClickSend =>
      (* a disabled button delivers no click *)
      if sendDisabled (ui w) then w else callSendMessage p w
  | ChangeInput v =>
      (* the text field is disabled while loading *)
      if loading (ui w) then w else withUi w (setInput v (ui w))
  | StyleChange v => withUi w (handleStyleChange p v (ui w))
  | SeeAllRulesChange v => withUi w (setSeeAllRules v (ui w))
  | ScrollSpeedChange v => withUi w (setScrollSpeed v (ui w))
  | Settle o =>
      match inflight w with
      | [] => w
      | pd :: rest =>
          match resume pd o (ui w) with
          | Ok s =>
              {| ui := s; inflight := rest; issued := issued w;
                 uncaught := uncaught w |}
          | Throw =>
              {| ui := ui w; inflight := rest; issued := issued w;
                 uncaught := S (uncaught w) |}
          end
      end
  end.

Definition run (p : Props) (w : World) (es : list Event) : World :=
  fold_left (step p) es w.

End Environment.

(** What holds of every world the component can be in: no error has escaped,
    and either nothing is in flight and the loading flag is clear, or exactly
    one request is in flight and the flag is set. *)
Definition consistent (w : World) : Prop :=
  uncaught w = 0 /\
  ((inflight w = [] /\ loading (ui w) = false)
   \/ (exists req,
         inflight w = [ {| request := req; resume := sendMessage_resume |} ])
      /\ loading (ui w) = true).

(** *** Rendering a reply *)

Record MarkdownTable : Type := mkTable {
  header : list str;
  rows : list (list str)
}.

Inductive Rendered : Type :=
| Span (t : str)                       (* <span>{t}</span> *)
| Ul (items : list str)                (* <ul><li>..</li>..</ul> *)
| TableElement (t : MarkdownTable)     (* <table>..</table> *)
| Pre (t : str)                        (* <pre>{t}</pre> *)
| SpanHtml (html : str).               (* dangerouslySetInnerHTML *)

Definition PIPE : char := 124%N.
Definition DASH : char := 45%N.

(** [line.split('|').map(cell => cell.trim()).filter(Boolean)]. *)
Definition cells (line : str) : list str :=
  filter truthy (map trim (split_on (N.eqb PIPE) line)).

(** The lines kept by [parseMarkdownTable]. *)
Definition tableLines (md : str) : list str :=
  filter (fun line => startsWith (trim line) [PIPE]) (split_lines (trim md)).

Definition parseMarkdownTable (md : str) : option MarkdownTable :=
  let lines := tableLines md in
  if length lines <? 2 then None
  else Some {| header := cells (nth 0 lines []);
               rows := map cells (skipn 2 lines) |}.

Definition renderMarkdownTable (md : str) : Rendered :=
  match parseMarkdownTable md with
  | None => Span md
  | Some t => TableElement t
  end.

(** [/^[a-zA-Z0-9]/.test(line)]. *)
Definition startsAlphanumeric (line : str) : bool :=
  match line with
  | c :: _ =>
      ((97 <=? c) && (c <=? 122) || (65 <=? c) && (c <=? 90)
       || (48 <=? c) && (c <=? 57))%N
  | [] => false
  end.

(** The lines kept by the bullet style. *)
Definition bulletLines (t : str) : list str :=
  filter (fun line =>
            truthy line
            && (startsWith line [DASH] || startsWith line [BULLET]
                || startsAlphanumeric line))
         (map trim (split_on (fun c => N.eqb c LF || N.eqb c CR) t)).

(** [line.replace(/^[-•]\s*/, '')]. *)
Definition stripMarker (line : str) : str :=
  match line with
  | c :: r => if N.eqb c DASH || N.eqb c BULLET then trimStart r else line
  | [] => []
  end.

(** The texts of the list items of the bullet style. *)
Definition bulletItems (t : str) : list str :=
  map stripMarker (bulletLines t).

Section Renderer.

(** [renderJsonBlock], which relies on [JSON.parse]. *)
Variable renderJsonBlock : str -> Rendered.

(** The heading, bold and line-break replacements of the prose styles. *)
Variable proseHtml : str -> str.

Definition renderAiMessage (style : ResponseStyle) (msg : Message) : Rendered :=
  match sender msg with
  | user => Span (text msg)
  | ai =>
      match style with
      | bullet => Ul (bulletItems (text msg))
      | table =>
          if includes_char PIPE (text msg) then renderMarkdownTable (text msg)
          else Span (text msg)
      | json => renderJsonBlock (text msg)
      | detailed | human | concise => SpanHtml (proseHtml (text msg))
      end
  end.

End Renderer.

End Chat.

(** ** The raw JSON viewer ([RuleJsonPopup]) *)

Module JsonPopup.
Import Js.

Inductive Direction : Type := NEXT | PREV.

Record State : Type := mkState {
  searchTerm : str;
  currentMatchIndex : Z
}.

Definition initialState : State :=
  {| searchTerm := []; currentMatchIndex := 0 |}.

Inductive Event : Type :=
| ChangeTerm (v : str)
| Navigate (d : Direction).

Section Search.

(** [text.match(new RegExp(term, 'gi')) || []]: the matches of the term, read
    as a regular expression; [Throw] when the term is not a valid one. *)
Variable matchAll : str -> str -> result (list str).

(** The [json] prop, a string. *)
Variable json : str.

(** The body of the [setCurrentMatchIndex] updater. *)
Definition newIndex (d : Direction) (prev : Z) (count : nat) : Z :=
  match d with
  | NEXT => Z.rem (prev + 1) (Z.of_nat count)
  | PREV => Z.rem (prev - 1 + Z.of_nat count) (Z.of_nat count)
  end.

Definition handleMatchNavigation (d : Direction) (s : State) : result State :=
  if negb (truthy json) || negb (truthy (searchTerm s)) then Ok s
  else
    matches <- matchAll (searchTerm s) json ;;
    if length matches =? 0 then Ok s
    else Ok {| searchTerm := searchTerm s;
               currentMatchIndex :=
                 newIndex d (currentMatchIndex s) (length matches) |}.

(** The counter shown next to the arrows. *)
Definition matchCounter (s : State) : result str :=
  totalMatches <-
    (if truthy (searchTerm s)
     then (matches <- matchAll (searchTerm s) json ;; Ok (length matches))
     else Ok 0) ;;
  if 0 <? totalMatches
  then Ok (ofZ (currentMatchIndex s + 1) ++ lit " / " ++ ofNat totalMatches)
  else Ok (lit "0 / 0").

(** An event handler that throws leaves the state as it was. *)
Definition step (s : State) (e : Event) : State :=
  match e with
  | ChangeTerm v => {| searchTerm := v; currentMatchIndex := 0 |}
  | Navigate d =>
      match handleMatchNavigation d s with
      | Ok s' => s'
      | Throw => s
      end
  end.

Definition run (s : State) (es : list Event) : State := fold_left step es s.

(** The match count the component works with: an empty term counts as no
    match. *)
Definition totalMatches (s : State) : result nat :=
  if truthy (searchTerm s)
  then (matches <- matchAll (searchTerm s) json ;; Ok (length matches))
  else Ok 0.

(** The current index is never negative, and it designates a match whenever
    the term has matches. *)
Definition inRange (s : State) : Prop :=
  (0 <= currentMatchIndex s)%Z /\
  forall n, totalMatches s = Ok n -> 1 <= n ->
            (currentMatchIndex s < Z.of_nat n)%Z.

(** [n] presses of the NEXT arrow. *)
Definition pressNext (n : nat) (s : State) : State :=
  Nat.iter n (fun x => step x (Navigate NEXT)) s.

End Search.

End JsonPopup.

(** ** Manual scrolling and the scroll animation ([handleScroll],
       [animateScroll])

    Scroll offsets and times are taken as exact rationals. *)

Module Scrolling.

Local Open Scope Q_scope.

(** The scroll container, as the handlers read it. *)
Record Container : Type := mkContainer {
  scrollTop : Q;
  scrollHeight : Q;
  clientHeight : Q
}.

Record ScrollState : Type := mkScrollState {
  userScrolledUp : bool;
  lastScrollTop : Q
}.

Definition setUserScrolledUp (v : bool) (s : ScrollState) : ScrollState :=
  {| userScrolledUp := v; lastScrollTop := lastScrollTop s |}.

Definition setLastScrollTop (v : Q) (s : ScrollState) : ScrollState :=
  {| userScrolledUp := userScrolledUp s; lastScrollTop := v |}.

(** [a < b] and [a >= b] on numbers. *)
Definition ltb (a b : Q) : bool := negb (Qle_bool b a).
Definition geb (a b : Q) : bool := Qle_bool b a.

(** [handleScroll]; [s] is the state of the render whose handler runs. *)
Definition handleScroll (container : Container) (s : ScrollState) : ScrollState :=
  let currentScrollTop := scrollTop container in
  let maxScrollTop := scrollHeight container - clientHeight container in
  let s1 :=
    if ltb currentScrollTop (lastScrollTop s)
       && ltb currentScrollTop (maxScrollTop - 100)
    then setUserScrolledUp true s else s in
  let s2 :=
    if geb currentScrollTop (maxScrollTop - 50)
    then setUserScrolledUp false s1 else s1 in
  setLastScrollTop currentScrollTop s2.






End Scrolling.

(** ** The JSON and prose renderers ([renderJsonBlock], the prose branch of
       [renderAiMessage]) *)

Module Rendering.
Import Js Chat.

(** Neither end of the string is white space. *)
Definition clean (s : str) : Prop :=
  trimStart s = s /\ trimStart (rev s) = rev s.

Definition BACKTICK : char := 96%N.
Definition fence : str := [BACKTICK; BACKTICK; BACKTICK].

(** A code unit of the text matches the letter [x] (lower case) of a pattern
    with the [i] flag: only the two ASCII cases of the letter do. *)
Definition letter_ci (x c : char) : bool := (N.eqb c x || N.eqb c (x - 32))%N.

(** The text after a leading "```json" in any letter case, if the text starts
    with one. *)
Definition afterTag (s : str) : option str :=
  match s with
  | b1 :: b2 :: b3 :: j :: s' :: o :: n :: rest =>
      if N.eqb b1 BACKTICK && N.eqb b2 BACKTICK && N.eqb b3 BACKTICK
         && letter_ci 106%N j && letter_ci 115%N s' && letter_ci 111%N o
         && letter_ci 110%N n
      then Some rest else None
  | _ => None
  end.

(** The shortest prefix of [s] that is followed by "```". *)
Fixpoint beforeFence (s : str) : option str :=
  if startsWith s fence then Some []
  else match s with
       | [] => None
       | c :: s' => option_map (cons c) (beforeFence s')
       end.

(** The first capture group of [text.match(/```json([\s\S]*?)```/i)]; [None]
    when there is no match. *)
Fixpoint matchFence (s : str) : option str :=
  match (match afterTag s with
         | Some rest => beforeFence rest
         | None => None
         end) with
  | Some body => Some body
  | None => match s with
            | [] => None
            | _ :: s' => matchFence s'
            end
  end.

(** [text.replace(/```json|```/g, '')]; [skip] code units of a match are
    still to be dropped. *)
Fixpoint stripFences (skip : nat) (s : str) : str :=
  match s with
  | [] => []
  | c :: s' =>
      match skip with
      | S k => stripFences k s'
      | O =>
          if startsWith s fence
          then stripFences (if startsWith s (fence ++ lit "json") then 6 else 2) s'
          else c :: stripFences 0 s'
      end
  end.

Section Json.

(** [JSON.parse]; it throws on a text that is not JSON. *)
Variable JSON_parse : str -> result JsonValue.

(** [JSON.stringify(json, null, 2)]. *)
Variable JSON_pretty : JsonValue -> str.

(** The [try] block computes the parsed value; the [catch] returns the raw
    text. *)
Definition renderJsonBlock (text : str) : Rendered :=
  match (match matchFence text with
         | Some body => JSON_parse body
         | None => JSON_parse (stripFences 0 text)
         end) with
  | Ok value => Pre (JSON_pretty value)
  | Throw => Pre text
  end.

End Json.

(** LineTerminator code units: what [.] does not match and where [^] and [$]
    match under the [m] flag. *)
Definition isLineTerminator (c : char) : bool :=
  (N.eqb c 10 || N.eqb c 13 || N.eqb c 8232 || N.eqb c 8233)%N.

Definition HASH : char := 35%N.
Definition STAR : char := 42%N.

Definition bold (t : str) : str := lit "<b>" ++ t ++ lit "</b>".

(** Where the scan of the heading pattern stands. *)
Inductive HeadingScan : Type :=
| Outside (lineStart : bool)   (* no match under way *)
| InHashes                     (* reading the hashes *)
| InSpace                      (* reading the white space after them *)
| InTitle (title : str).       (* reading the rest of the line *)

(** The first replacement of the prose branch: every match of the heading
    pattern (at a line start, one or more hashes, white space, the rest of
    the line) becomes the trimmed rest of the line in bold. *)
Fixpoint headings (st : HeadingScan) (s : str) : str :=
  match s with
  | [] =>
      match st with
      | Outside _ => []
      | InHashes | InSpace => bold (trim [])
      | InTitle title => bold (trim title)
      end
  | c :: s' =>
      match st with
      | Outside lineStart =>
          if lineStart && N.eqb c HASH then headings InHashes s'
          else c :: headings (Outside (isLineTerminator c)) s'
      | InHashes =>
          if N.eqb c HASH then headings InHashes s'
          else if isWhiteSpace c then headings InSpace s'
          else headings (InTitle [c]) s'
      | InSpace =>
          if isWhiteSpace c then headings InSpace s'
          else headings (InTitle [c]) s'
      | InTitle title =>
          if isLineTerminator c
          then bold (trim title) ++ c :: headings (Outside true) s'
          else headings (InTitle (title ++ [c])) s'
      end
  end.

(** The shortest run of code units other than line terminators that is
    followed by "**". *)
Fixpoint beforeStars (s : str) : option str :=
  if startsWith s [STAR; STAR] then Some []
  else match s with
       | [] => None
       | c :: s' =>
           if isLineTerminator c then None
           else option_map (cons c) (beforeStars s')
       end.

(** [text.replace(/\*\*(.*?)\*\*/g, '<b>$1</b>')]; [skip] code units of a
    match are still to be dropped. *)
Fixpoint bolds (skip : nat) (s : str) : str :=
  match s with
  | [] => []
  | c :: s' =>
      match skip with
      | S k => bolds k s'
      | O =>
          match (if startsWith s [STAR; STAR] then beforeStars (tl s') else None) with
          | Some inner => bold inner ++ bolds (length inner + 3) s'
          | None => c :: bolds 0 s'
          end
      end
  end.

(** [text.replace(/\n/g, '<br/>')]. *)
Fixpoint breaks (s : str) : str :=
  match s with
  | [] => []
  | c :: s' => if N.eqb c LF then lit "<br/>" ++ breaks s' else c :: breaks s'
  end.

(** The markup handed to [dangerouslySetInnerHTML]. *)
Definition proseHtml (text : str) : str :=
  breaks (bolds 0 (headings (Outside true) text)).

End Rendering.

(** ** Positions of the related rules *)

Module Relationship.
Import Js Chat.

(** Positions, in the rule list, of the rules of [childRules]. *)
Definition childPositions (p : Props) : list nat :=
  map fst (filter_indexed
             (fun (_ : Rule) index => includes (ofNat index) (childIds p))
             (rulesOrEmpty p)).

(** The popup opened on the rule whose identifier is the position [i]. *)
Definition popupAt (rs : list Rule) (es : list Edge) (aiPage : bool) (i : nat)
  : Props :=
  {| rule := option_map
               (fun r => {| id := Some (ofNat i); name := name r;
                            Name := Name r; Statement := Statement r |})
               (nth_error rs i);
     allRules := Some rs; edges := es; isAIPage := aiPage |}.

End Relationship.

(** ** Shapes of conversations and requests *)

Module Conversation.
Import Js Chat.

(** The two synthetic greetings. *)
Definition isGreeting (g : str) : Prop :=
  g = greetingRule \/ g = greetingGeneral.

(** The conversation opens with a synthetic greeting. *)
Definition greeted (s : State) : Prop :=
  exists g rest,
    isGreeting g /\ messages s = {| sender := ai; text := g |} :: rest.

(** The shape of a request: system message, rule JSON, greeting, ..., and a
    non-blank user message last. *)
Definition wellFormed (req : Request) : Prop :=
  model req = lit "gpt-4o-mini" /\ temperature req = (3 # 10)%Q /\
  exists sys rules g history question,
    isGreeting g /\ blank question = false /\
    request_messages req
    = {| role := role_system; content := sys |}
      :: {| role := role_user; content := lit "Rule JSON: " ++ rules |}
      :: {| role := role_assistant; content := g |}
      :: history ++ [ {| role := role_user; content := question |} ].

(** What every reachable world satisfies besides [consistent]. *)
Definition sound (w : World) : Prop :=
  greeted (ui w) /\ Forall wellFormed (issued w)
  /\ Forall (fun pd => resume pd = sendMessage_resume) (inflight w).

End Conversation.

(** ** The specification's wording *)

Module Spec.
Import Js Chat.

(** The lines of a text that start with [|], taken literally: the first code
    unit of the line is [|]. *)
Definition linesStartingWithPipe (md : str) : list str :=
  filter (fun line => startsWith line [PIPE]) (split_lines md).

End Spec.

(** ** Inputs of the specification's examples *)

Module Sample.
Import Js Chat.

Definition ruleA : Rule :=
  {| id := Some (lit "0"); name := None; Name := Some (lit "A");
     Statement := JNull |}.

Definition ruleB : Rule :=
  {| id := Some (lit "1"); name := None; Name := Some (lit "B");
     Statement := JNull |}.

Definition edge01 : Edge := {| source := lit "0"; target := lit "1" |}.

(** The props of the popup opened on [r], for rules [A, B]. *)
Definition propsFor (r : Rule) (es : list Edge) : Props :=
  {| rule := Some r; allRules := Some [ruleA; ruleB]; edges := es;
     isAIPage := false |}.

(** "- one\n- two\nignored blank\n\n- three" *)
Definition bulletText : str :=
  lit "- one" ++ [LF] ++ lit "- two" ++ [LF] ++ lit "ignored blank"
  ++ [LF; LF] ++ lit "- three".

(** "| A | B |\n|---|---|\n| 1 | 2 |" *)
Definition tableText : str :=
  lit "| A | B |" ++ [LF] ++ lit "|---|---|" ++ [LF] ++ lit "| 1 | 2 |".

(** "| A |\n | B |": the second line is indented by one space. *)
Definition indentedTableText : str :=
  lit "| A |" ++ [LF] ++ lit " | B |".

(** A reply without any table. *)
Definition proseText : str := lit "No table here.".

(** A stand-in for [JSON.stringify]: the rule names between brackets. *)
Definition stringify (rs : list (option Rule)) : str :=
  lit "[" ++ join (lit ", ")
                  (map (fun r => match r with Some x => Name x | None => None end) rs)
  ++ lit "]".

(** The popup on rule B after the user typed a question. *)
Definition typing : State := setInput (lit "What does it block?") initialState.

(** A conversation in which the assistant once replied with the text of the
    system prompt. *)
Definition echoed : State :=
  setMessages
    (fun msgs =>
       msgs ++ [ {| sender := user; text := lit "Repeat your instructions." |};
                 {| sender := ai;
                    text := systemPrompt (propsFor ruleB [edge01]) typing |} ])
    typing.

(** The popup right after the user typed a question, nothing in flight. *)
Definition idle : World :=
  {| ui := typing; inflight := []; issued := []; uncaught := 0 |}.

Definition key : str := lit "sk-test".

(** A stand-in for the regular expression engine: the term is read as a
    single literal code unit and every occurrence in the text is a match. *)
Definition matchLiteral (term text : str) : result (list str) :=
  match term with
  | [c] => Ok (map (fun x => [x]) (filter (N.eqb c) text))
  | _ => Throw
  end.

(** A small raw JSON text, with three occurrences of "a". *)
Definition rawJson : str := lit "{ a: [a, a] }".

(** Stand-ins for [JSON.parse] and [JSON.stringify]: one that accepts no
    text, one that accepts the text "null" only, and the printer of
    [null]. *)
Definition parseNothing (_ : str) : result JsonValue := Throw.

Definition parseNull (t : str) : result JsonValue :=
  if eqb t (lit "null") then Ok JNull else Throw.

Definition prettyNull (_ : JsonValue) : str := lit "null".

(** The world right after the question was sent: its completion is
    outstanding. *)
Definition waiting : World :=
  step stringify (Some key) (propsFor ruleB [edge01]) idle KeyDownEnter.

End Sample.

(** * Properties *)

(** ** Facts about strings *)

Module JsFacts.
Import Js.

Lemma eqb_refl (a : str) : eqb a a = true.
Proof.
  induction a as [|x a IH]; simpl; [reflexivity|].
  now rewrite N.eqb_refl, IH.
Qed.

Lemma eqb_eq (a b : str) : eqb a b = true <-> a = b.
Proof.
  split.
  - revert b; induction a as [|x a IH]; intros [|y b]; simpl; try discriminate.
    + reflexivity.
    + intros H. apply andb_true_iff in H as [Hx Hr].
      apply N.eqb_eq in Hx. now rewrite Hx, (IH _ Hr).
  - intros ->. apply eqb_refl.
Qed.

Lemma eqb_neq (a b : str) : eqb a b = false <-> a <> b.
Proof.
  rewrite <- eqb_eq. destruct (eqb a b); split; congruence.
Qed.

Lemma includes_In (x : str) (xs : list str) : includes x xs = true <-> In x xs.
Proof.
  unfold includes. rewrite existsb_exists. split.
  - intros [y [Hy He]]. apply eqb_eq in He. now subst.
  - intros H. exists x. split; [assumption | apply eqb_refl].
Qed.

End JsFacts.

(** ** Relationship resolution *)

Module RelationshipFacts.
Import Js Chat JsFacts.

Lemma map_fst_filter_NoDup {A B : Type} (f : A * B -> bool) (l : list (A * B)) :
  NoDup (map fst l) -> NoDup (map fst (filter f l)).
Proof.
  induction l as [|x l IH]; simpl; intros H; [constructor|].
  inversion H as [|? ? Hx Hl]; subst.
  destruct (f x); simpl; [|now apply IH].
  constructor; [|now apply IH].
  intros Hin. apply Hx.
  apply in_map_iff in Hin as [y [Hy Hf]].
  apply filter_In in Hf as [Hf _].
  apply in_map_iff. now exists y.
Qed.

Lemma map_fst_combine_seq {A : Type} (l : list A) (a : nat) :
  map fst (combine (seq a (length l)) l) = seq a (length l).
Proof.
  revert a; induction l as [|x l IH]; intros a; simpl; [reflexivity|].
  now rewrite IH.
Qed.

Lemma filter_indexed_NoDup {A : Type} (f : A -> nat -> bool) (xs : list A) :
  NoDup (map fst (filter_indexed f xs)).
Proof.
  unfold filter_indexed. apply map_fst_filter_NoDup.
  rewrite map_fst_combine_seq. apply seq_NoDup.
Qed.

(** Each rule position occurs at most once among the parents. *)
Lemma parentPositions_NoDup (p : Props) : NoDup (parentPositions p).
Proof. apply filter_indexed_NoDup. Qed.

Lemma parentRules_positions (p : Props) :
  length (parentRules p) = length (parentPositions p).
Proof.
  unfold parentRules, parentPositions, array_filter.
  now rewrite !length_map.
Qed.

Lemma filter_indexed_ext {A : Type} (f g : A -> nat -> bool) (xs : list A) :
  (forall x i, f x i = g x i) -> filter_indexed f xs = filter_indexed g xs.
Proof.
  intros H. unfold filter_indexed. apply filter_ext. intros [i x]. apply H.
Qed.

Lemma In_parentIds (p : Props) (x : str) :
  In x (parentIds p) <->
  exists e, In e (edges p) /\ target e = ruleId p /\ source e = x.
Proof.
  unfold parentIds. rewrite in_map_iff. split.
  - intros [e [Hs Hf]]. apply filter_In in Hf as [Hin Ht].
    apply eqb_eq in Ht. now exists e.
  - intros [e [Hin [Ht Hs]]]. exists e. split; [assumption|].
    apply filter_In. split; [assumption|]. now apply eqb_eq.
Qed.

(** The membership tests on the parent identifiers only depend on which
    edges are present. *)
Lemma includes_parentIds_same_edges
      (r : option Rule) (all : option (list Rule)) (es1 es2 : list Edge)
      (aiPage : bool) (x : str) :
  (forall e, In e es1 <-> In e es2) ->
  includes x (parentIds (mkProps r all es1 aiPage))
  = includes x (parentIds (mkProps r all es2 aiPage)).
Proof.
  intros H. apply eq_true_iff_eq. rewrite !includes_In, !In_parentIds.
  simpl. split; intros [e [Hin Hte]]; exists e; (split; [now apply H | exact Hte]).
Qed.

(** C5. For the edge list [{source:"0", target:"1"}] and the rules [A, B]
    with identifiers "0" and "1", the rule at index 1 has parent names "A"
    and child names "None", and the rule at index 0 has parent names "None"
    and child names "B" (whatever the other properties of the two rules). *)
Theorem relationships_of_two_rules
        (nameA nameB : option str) (stA stB : JsonValue) (aiPage : bool) :
  let A := mkRule (Some (lit "0")) nameA (Some (lit "A")) stA in
  let B := mkRule (Some (lit "1")) nameB (Some (lit "B")) stB in
  let popup r := mkProps (Some r) (Some [A; B])
                         [mkEdge (lit "0") (lit "1")] aiPage in
  parentNames (popup B) = lit "A" /\ childNames (popup B) = lit "None" /\
  parentNames (popup A) = lit "None" /\ childNames (popup A) = lit "B".
Proof.
  cbv zeta. repeat split; vm_compute; reflexivity.
Qed.

(** C6, as stated, fails: with the edge 0 -> 1 given twice, the parent names
    of B are "A", not "A, A"; and no input at all makes a rule position occur
    twice among the parents. *)
Lemma duplicate_edge_counterexample :
  let p := Sample.propsFor Sample.ruleB [Sample.edge01; Sample.edge01] in
  count_occ Edge_eq_dec (edges p) Sample.edge01 = 2 /\
  parentIds p = [lit "0"; lit "0"] /\
  parentRules p = [Sample.ruleA] /\
  parentNames p = lit "A" /\
  parentNames p <> lit "A, A" /\
  ~ (exists (q : Props) (e : Edge) (i : nat),
        2 <= count_occ Edge_eq_dec (edges q) e /\
        target e = ruleId q /\ source e = ofNat i /\
        2 <= count_occ Nat.eq_dec (parentPositions q) i).
Proof.
  cbv zeta. repeat split; try (vm_compute; reflexivity).
  - vm_compute. discriminate.
  - intros [q [e [i [_ [_ [_ H]]]]]].
    pose proof (parentPositions_NoDup q) as Hnd.
    rewrite (NoDup_count_occ Nat.eq_dec) in Hnd.
    specialize (Hnd i). lia.
Qed.

(** C6, amended. The parents are the rule list filtered by position, so
    repeated edges add nothing: two edge lists with the same edges, whatever
    their multiplicities and order, give the same parent rules and the same
    parent names, and every rule position occurs at most once among the
    parents. *)
Theorem duplicate_edges_collapse
        (r : option Rule) (all : option (list Rule)) (es1 es2 : list Edge)
        (aiPage : bool) :
  (forall e, In e es1 <-> In e es2) ->
  let p1 := mkProps r all es1 aiPage in
  let p2 := mkProps r all es2 aiPage in
  parentRules p2 = parentRules p1 /\
  parentNames p2 = parentNames p1 /\
  NoDup (parentPositions p2) /\
  length (parentRules p2) = length (parentPositions p2).
Proof.
  intros Hsame p1 p2.
  assert (Hr : parentRules p2 = parentRules p1).
  { unfold parentRules, array_filter. f_equal.
    apply filter_indexed_ext. intros _ i. symmetry.
    now apply includes_parentIds_same_edges. }
  repeat split.
  - exact Hr.
  - unfold parentNames. now rewrite Hr.
  - apply parentPositions_NoDup.
  - apply parentRules_positions.
Qed.

Lemma duplicate_edges_collapse_witness :
  (forall e, In e [Sample.edge01] <-> In e [Sample.edge01; Sample.edge01]) /\
  parentNames (Sample.propsFor Sample.ruleB [Sample.edge01; Sample.edge01])
  = parentNames (Sample.propsFor Sample.ruleB [Sample.edge01]).
Proof.
  assert (H : forall e, In e [Sample.edge01]
                        <-> In e [Sample.edge01; Sample.edge01])
    by (intros e; simpl; tauto).
  split; [exact H|].
  exact (proj1 (proj2 (duplicate_edges_collapse
                         (Some Sample.ruleB)
                         (Some [Sample.ruleA; Sample.ruleB])
                         [Sample.edge01] [Sample.edge01; Sample.edge01]
                         false H))).
Defined.

End RelationshipFacts.

(** ** Scroll timing *)

Module ScrollFacts.
Import Js Chat.

Lemma lastMessage_snoc (msgs : list Message) (m : Message) :
  lastMessage (msgs ++ [m]) = Some m.
Proof.
  induction msgs as [|x msgs IH]; simpl; [reflexivity|].
  rewrite IH. destruct (msgs ++ [m]) eqn:E; [|reflexivity].
  now destruct msgs.
Qed.

Lemma responseLength_snoc (msgs : list Message) (m : Message) :
  responseLength (msgs ++ [m]) = Z.of_nat (length (text m)).
Proof. unfold responseLength. now rewrite lastMessage_snoc. Qed.

Lemma baseDurationPerChar_pos (v : ScrollSpeed) : (0 < baseDurationPerChar v)%Z.
Proof. destruct v; vm_compute; reflexivity. Qed.

Lemma scrollDuration_mono (v : ScrollSpeed) (a b : Z) :
  (a <= b)%Z -> (scrollDuration v a <= scrollDuration v b)%Z.
Proof.
  intros H. pose proof (baseDurationPerChar_pos v) as Hpos.
  destruct v; simpl scrollDuration; try lia;
    apply Z.max_le_compat_l; nia.
Qed.

(** C9. For a fixed speed profile the scroll duration does not decrease when
    the most recent message gets longer; for slow, normal and fast it is
    max(8000, length * k) with k = 24, 12, 8, hence at least 8000, and the
    view is animated for that long; for instant it is 0 and the view jumps;
    for none nothing is scrolled.  (All quantities are integers far below
    2^53, on which the source's arithmetic is exact.) *)
Theorem scroll_duration_profile
        (v : ScrollSpeed) (msgs1 msgs2 : list Message) (m1 m2 : Message)
        (s : State) :
  length (text m1) <= length (text m2) ->
  let len1 := Z.of_nat (length (text m1)) in
  let d1 := scrollDuration v (responseLength (msgs1 ++ [m1])) in
  let d2 := scrollDuration v (responseLength (msgs2 ++ [m2])) in
  let view := setScrollSpeed v (setMessages (fun _ => msgs1 ++ [m1]) s) in
  (d1 <= d2)%Z /\
  match v with
  | slow => d1 = Z.max 8000 (len1 * 24) /\ (8000 <= d1)%Z
            /\ scrollToBottom true view = Some (Animate d1)
  | normal => d1 = Z.max 8000 (len1 * 12) /\ (8000 <= d1)%Z
              /\ scrollToBottom true view = Some (Animate d1)
  | fast => d1 = Z.max 8000 (len1 * 8) /\ (8000 <= d1)%Z
            /\ scrollToBottom true view = Some (Animate d1)
  | instant => d1 = 0%Z /\ scrollToBottom true view = Some JumpToBottom
  | none => scrollToBottom true view = None
  end.
Proof.
  intros Hle len1 d1 d2 view. split.
  - subst d1 d2. rewrite !responseLength_snoc.
    apply scrollDuration_mono. lia.
  - assert (Hd : d1 = scrollDuration v len1)
      by (subst d1 len1; now rewrite responseLength_snoc).
    assert (Hview : v <> none ->
              scrollToBottom true view
              = Some (if Z.eqb d1 0 then JumpToBottom else Animate d1)).
    { intros Hv. subst view d1. unfold scrollToBottom. simpl.
      destruct v; try reflexivity. now elim Hv. }
    clearbody d1 d2.
    destruct v.
    1-3: (split; [rewrite Hd; reflexivity|]);
         (assert (H8 : (8000 <= d1)%Z)
            by (rewrite Hd; simpl scrollDuration; apply Z.le_max_l));
         (split; [exact H8|]);
         (rewrite Hview by discriminate);
         (destruct (Z.eqb_spec d1 0); [lia | reflexivity]).
    + split; [rewrite Hd; reflexivity|].
      rewrite Hview by discriminate.
      now rewrite Hd.
    + reflexivity.
Qed.

Lemma scroll_duration_profile_witness :
  let m1 := {| sender := ai; text := lit "ok" |} in
  let m2 := {| sender := ai; text := lit "a longer reply" |} in
  length (text m1) <= length (text m2) /\
  (scrollDuration fast (responseLength (messages initialState ++ [m1]))
   <= scrollDuration fast (responseLength ([] ++ [m2])))%Z.
Proof.
  cbv zeta.
  assert (H : length (lit "ok") <= length (lit "a longer reply"))
    by (vm_compute; lia).
  split; [exact H|].
  exact (proj1 (scroll_duration_profile fast (messages initialState) []
                  {| sender := ai; text := lit "ok" |}
                  {| sender := ai; text := lit "a longer reply" |}
                  initialState H)).
Defined.

End ScrollFacts.

(** ** Rendering *)

Module RenderFacts.
Import Js Chat.

(** No kept bullet line is blank, and each starts with a dash, a bullet or an
    alphanumeric character. *)
Lemma bulletLines_kept (t line : str) :
  In line (bulletLines t) ->
  line <> [] /\
  (startsWith line [DASH] = true \/ startsWith line [BULLET] = true
   \/ startsAlphanumeric line = true).
Proof.
  unfold bulletLines. intros H. apply filter_In in H as [_ H].
  apply andb_true_iff in H as [Ht Hs]. split.
  - intros ->. discriminate.
  - apply orb_true_iff in Hs as [Hs|Hs]; [|now right; right].
    apply orb_true_iff in Hs as [Hs|Hs]; [now left | now right; left].
Qed.

(** C7, as stated, fails: the line "ignored blank" starts with a letter and
    is kept, so the text yields four items, not three. *)
Lemma bullet_example_counterexample :
  bulletItems Sample.bulletText
  = [lit "one"; lit "two"; lit "ignored blank"; lit "three"] /\
  length (bulletItems Sample.bulletText) = 4 /\
  bulletItems Sample.bulletText <> [lit "one"; lit "two"; lit "three"].
Proof.
  repeat split; try (vm_compute; reflexivity).
  vm_compute. discriminate.
Qed.

(** C7, amended. Bullet rendering of "- one\n- two\nignored blank\n\n- three"
    produces exactly four list items with the leading markers stripped:
    "one", "two", "ignored blank", "three".  The blank line is excluded; the
    line "ignored blank" begins with an alphanumeric character and is
    included. *)
Theorem bullet_example
        (renderJsonBlock : str -> Rendered) (proseHtml : str -> str) :
  renderAiMessage renderJsonBlock proseHtml bullet
                  {| sender := ai; text := Sample.bulletText |}
  = Ul [lit "one"; lit "two"; lit "ignored blank"; lit "three"].
Proof.
  unfold renderAiMessage. simpl sender. cbv iota.
  vm_compute. reflexivity.
Qed.

Lemma tableLines_two (md : str) :
  2 <= length (tableLines md) ->
  exists h sep rest, tableLines md = h :: sep :: rest.
Proof.
  destruct (tableLines md) as [|h [|sep rest]]; simpl; intros H; try lia.
  now exists h, sep, rest.
Qed.

(** C8, as stated, fails: in "| A |\n | B |" only one line starts with [|],
    yet the parser succeeds, because it looks at each line with its
    surrounding white space trimmed. *)
Lemma indented_table_counterexample :
  length (Spec.linesStartingWithPipe Sample.indentedTableText) < 2 /\
  parseMarkdownTable Sample.indentedTableText
  = Some {| header := [lit "A"]; rows := [] |} /\
  renderMarkdownTable Sample.indentedTableText
  = TableElement {| header := [lit "A"]; rows := [] |} /\
  renderMarkdownTable Sample.indentedTableText
  <> Span Sample.indentedTableText.
Proof.
  split; [apply Nat.ltb_lt; vm_compute; reflexivity|].
  repeat split; try (vm_compute; reflexivity).
  vm_compute. discriminate.
Qed.

(** C8, amended. Let the table lines of a text be the lines of the trimmed
    text (split at line breaks) that start with [|] once their own
    surrounding white space is trimmed.  If there are fewer than two, the
    parser fails and the raw text is shown verbatim.  Otherwise the header is
    the first table line split on [|] with cells trimmed and empties dropped,
    the second table line is skipped, and every following table line becomes
    a body row under the same split rule.  So "| A | B |\n|---|---|\n| 1 | 2 |"
    parses to header ["A","B"] and rows [["1","2"]]. *)
Theorem markdown_table_parsing (md : str) :
  (forall line, In line (tableLines md) <->
                In line (split_lines (trim md))
                /\ startsWith (trim line) [PIPE] = true) /\
  (length (tableLines md) < 2 ->
   parseMarkdownTable md = None /\ renderMarkdownTable md = Span md) /\
  (2 <= length (tableLines md) ->
   exists h sep rest,
     tableLines md = h :: sep :: rest /\
     parseMarkdownTable md
     = Some {| header := filter truthy (map trim (split_on (N.eqb PIPE) h));
               rows := map (fun line =>
                              filter truthy
                                (map trim (split_on (N.eqb PIPE) line)))
                           rest |} /\
     renderMarkdownTable md
     = TableElement {| header := cells h; rows := map cells rest |}) /\
  parseMarkdownTable Sample.tableText
  = Some {| header := [lit "A"; lit "B"]; rows := [[lit "1"; lit "2"]] |}.
Proof.
  split; [|split; [|split]].
  - intros line. unfold tableLines. rewrite filter_In. reflexivity.
  - intros H. apply Nat.ltb_lt in H.
    unfold renderMarkdownTable, parseMarkdownTable. now rewrite H.
  - intros H. destruct (tableLines_two md H) as [h [sep [rest E]]].
    exists h, sep, rest.
    unfold renderMarkdownTable, parseMarkdownTable.
    rewrite E. simpl. repeat split.
  - vm_compute. reflexivity.
Qed.

Lemma markdown_table_parsing_witness :
  length (tableLines Sample.proseText) < 2 /\
  renderMarkdownTable Sample.proseText = Span Sample.proseText.
Proof.
  assert (H : length (tableLines Sample.proseText) < 2)
    by (apply Nat.ltb_lt; vm_compute; reflexivity).
  split; [exact H|].
  exact (proj2 (proj1 (proj2 (markdown_table_parsing Sample.proseText)) H)).
Defined.

End RenderFacts.

(** ** The conversation *)

Module ChatFacts.
Import Js Chat JsFacts.

Lemma systemPrompt_head (p : Props) (s : State) :
  hd_error (systemPrompt p s) = Some 89%N.
Proof.
  unfold systemPrompt.
  generalize (or_else (styleInstructions (responseStyle s))
                      (styleInstructions concise)
              ++ [LF] ++ currentRuleInfo p ++ [LF] ++ dependencyInfo p
              ++ relationshipInstruction).
  intros t. vm_compute. reflexivity.
Qed.

(** Neither greeting is the system prompt: they start with "H", it starts
    with "Y". *)
Lemma greeting_not_systemPrompt (p : Props) (s : State) (g : str) :
  g = greetingRule \/ g = greetingGeneral -> g <> systemPrompt p s.
Proof.
  intros Hg E. pose proof (systemPrompt_head p s) as H. rewrite <- E in H.
  destruct Hg as [-> | ->]; vm_compute in H; discriminate.
Qed.

Lemma forwarded_spec (p : Props) (s : State) (m : Message) :
  forwarded p s m = false <-> sender m = ai /\ text m = systemPrompt p s.
Proof.
  unfold forwarded. rewrite orb_false_iff, !negb_false_iff, eqb_eq.
  destruct (sender m); simpl; intuition congruence.
Qed.

Lemma sendMessage_resume_ok (o : Outcome) (cur : State) :
  exists s', sendMessage_resume o cur = Ok s' /\ loading s' = false
             /\ responseStyle s' = responseStyle cur
             /\ seeAllRules s' = seeAllRules cur
             /\ scrollSpeed s' = scrollSpeed cur
             /\ input s' = input cur.
Proof.
  unfold sendMessage_resume.
  destruct o as [r|]; simpl; [|eexists; repeat split].
  destruct (firstContent r); simpl; eexists; repeat split.
Qed.

Lemma sendMessage_resume_failure (o : Outcome) (cur : State) :
  (response <- await o ;; firstContent response) = Throw ->
  sendMessage_resume o cur
  = Ok (setLoading false
          (setMessages (append {| sender := ai; text := apologyText |}) cur)).
Proof.
  unfold sendMessage_resume. destruct o as [r|]; simpl; [|reflexivity].
  destruct (firstContent r); [discriminate | reflexivity].
Qed.

Section WithEnvironment.

Variable JSON_stringify : list (option Rule) -> str.
Variable apiKey : option str.
Variable p : Props.

Let step' := step JSON_stringify apiKey p.
Let run' := run JSON_stringify apiKey p.

Lemma callSendMessage_consistent (w : World) :
  consistent w -> loading (ui w) = false ->
  consistent (callSendMessage JSON_stringify apiKey p w).
Proof.
  intros [Hu [[Hi Hl] | [_ Hl]]] Hidle; [|congruence].
  unfold callSendMessage, sendMessage, newOpenAI.
  destruct (blank (input (ui w))).
  - simpl. split; [assumption|]. left. now split.
  - destruct apiKey; simpl.
    + split; [assumption|]. right. rewrite Hi. split; [|reflexivity].
      eexists. reflexivity.
    + split; [assumption|]. left. now split.
Qed.

Lemma step_consistent (w : World) (e : Event) :
  consistent w -> consistent (step' w e).
Proof.
  intros Hc. unfold step', step. destruct e.
  - destruct (loading (ui w)) eqn:Hl; simpl; [assumption|].
    now apply callSendMessage_consistent.
  - unfold sendDisabled. destruct (loading (ui w)) eqn:Hl; simpl; [assumption|].
    destruct (blank (input (ui w))); [assumption|].
    now apply callSendMessage_consistent.
  - destruct (loading (ui w)) eqn:Hl; [assumption|].
    destruct Hc as [Hu [[Hi _] | [_ Hl']]]; [|simpl in *; congruence].
    split; [assumption|]. left. now split.
  - destruct Hc as [Hu H]. split; [assumption|]. exact H.
  - destruct Hc as [Hu H]. split; [assumption|]. exact H.
  - destruct Hc as [Hu H]. split; [assumption|]. exact H.
  - destruct Hc as [Hu [[Hi Hl] | [[req Hi] Hl]]]; rewrite Hi.
    + split; [assumption|]. left. now split.
    + simpl. destruct (sendMessage_resume_ok o (ui w)) as [s' [E [Hl' _]]].
      rewrite E. split; [assumption|]. left. now split.
Qed.

Lemma run_consistent (es : list Event) (w : World) :
  consistent w -> consistent (run' w es).
Proof.
  revert w. induction es as [|e es IH]; intros w Hc; [assumption|].
  apply IH, step_consistent, Hc.
Qed.

Lemma initial_consistent : consistent initialWorld.
Proof. split; [reflexivity|]. left. now split. Qed.

(** The request that [sendMessage] hands to the gateway, spelled out. *)
Lemma sendMessage_awaits (s : State) (key : str) :
  apiKey = Some key -> blank (input s) = false ->
  sendMessage JSON_stringify apiKey p s
  = Ok (Await (setInput [] (setLoading true
                  (setMessages (append {| sender := user; text := input s |}) s)))
              (completionRequest JSON_stringify p s)
              sendMessage_resume).
Proof.
  intros Hk Hb. unfold sendMessage, newOpenAI. now rewrite Hb, Hk.
Qed.

(** C1, amended. When the first message is the synthetic greeting, the
    outbound history built by [sendMessage] always contains the greeting, as
    its third message: the filter compares each message's text with the
    system prompt, which the greeting never equals.  The filter removes
    exactly the assistant messages whose text is the system prompt; every
    user message and every other assistant message is forwarded. *)
Theorem greeting_always_forwarded
        (s : State) (g : str) (rest : list Message) (key : str) :
  g = greetingRule \/ g = greetingGeneral ->
  messages s = {| sender := ai; text := g |} :: rest ->
  apiKey = Some key ->
  blank (input s) = false ->
  g <> systemPrompt p s /\
  filter (forwarded p s) (messages s)
  = {| sender := ai; text := g |} :: filter (forwarded p s) rest /\
  (forall m, In m (messages s) ->
             (In m (filter (forwarded p s) (messages s))
              <-> ~ (sender m = ai /\ text m = systemPrompt p s))) /\
  exists s1 req,
    sendMessage JSON_stringify apiKey p s = Ok (Await s1 req sendMessage_resume)
    /\ nth_error (request_messages req) 2
       = Some {| role := role_assistant; content := g |}.
Proof.
  intros Hg Hm Hk Hb.
  pose proof (greeting_not_systemPrompt p s g Hg) as Hne.
  assert (Hf : filter (forwarded p s) (messages s)
               = {| sender := ai; text := g |} :: filter (forwarded p s) rest).
  { rewrite Hm. simpl. unfold forwarded at 1. simpl.
    apply eqb_neq in Hne. now rewrite Hne. }
  split; [exact Hne|]. split; [exact Hf|]. split.
  - intros m Hin. rewrite filter_In, <- forwarded_spec.
    destruct (forwarded p s m); intuition congruence.
  - eexists. eexists. split; [apply (sendMessage_awaits s key Hk Hb)|].
    simpl. unfold chatHistory. simpl. now rewrite Hf.
Qed.

(** C2. While the loading flag is set, a send attempt (Enter in the text
    field, or a click on Send) changes nothing: no user message is appended,
    no request is issued and none is queued.  In every world the component
    reaches, at most one request is in flight, one is in flight exactly when
    the loading flag is set, and no error has escaped. *)
Theorem single_completion_in_flight (w : World) (es : list Event) :
  (loading (ui w) = true ->
   step' w KeyDownEnter = w /\ step' w ClickSend = w) /\
  (let r := run' initialWorld es in
   length (inflight r) <= 1 /\
   (length (inflight r) = 1 <-> loading (ui r) = true) /\
   uncaught r = 0).
Proof.
  split.
  - intros Hl. unfold step', step, sendDisabled. now rewrite Hl.
  - cbv zeta.
    destruct (run_consistent es initialWorld initial_consistent)
      as [Hu [[Hi Hl] | [[req Hi] Hl]]].
    + rewrite Hi, Hl. simpl. repeat split; try lia; try assumption; discriminate.
    + rewrite Hi, Hl. simpl. repeat split; try lia; assumption.
Qed.

(** C3. Whenever the completion call fails (the promise is rejected, or the
    response has no first message), [sendMessage] resumes without throwing:
    on whatever state is current it appends the one fixed apology and clears
    the loading flag.  A whole send from an idle popup thus ends with the
    user's message and the apology appended, the flag clear, style, rule
    scope and scroll speed untouched, exactly one request issued and nothing
    left in flight. *)
Theorem completion_failure_absorbed (w : World) (key : str) (o : Outcome) :
  apiKey = Some key ->
  loading (ui w) = false -> inflight w = [] ->
  blank (input (ui w)) = false ->
  (response <- await o ;; firstContent response) = Throw ->
  let apology := {| sender := ai;
                    text := lit "Sorry, I could not get a response from the AI." |} in
  let w1 := step' w KeyDownEnter in
  let w2 := step' w1 (Settle o) in
  (forall cur, sendMessage_resume o cur
               = Ok (setLoading false (setMessages (append apology) cur))) /\
  messages (ui w2) = messages (ui w1) ++ [apology] /\
  messages (ui w2)
  = messages (ui w) ++ [ {| sender := user; text := input (ui w) |}; apology ] /\
  loading (ui w2) = false /\
  responseStyle (ui w2) = responseStyle (ui w) /\
  seeAllRules (ui w2) = seeAllRules (ui w) /\
  scrollSpeed (ui w2) = scrollSpeed (ui w) /\
  issued w1 = issued w ++ [completionRequest JSON_stringify p (ui w)] /\
  issued w2 = issued w1 /\
  inflight w2 = [] /\
  uncaught w2 = uncaught w.
Proof.
  intros Hk Hl Hi Hb Hfail apology w1 w2.
  assert (Hres : forall cur, sendMessage_resume o cur
                 = Ok (setLoading false (setMessages (append apology) cur)))
    by (intros cur; now apply sendMessage_resume_failure).
  assert (E1 : w1 = {| ui := setInput [] (setLoading true
                              (setMessages
                                 (append {| sender := user; text := input (ui w) |})
                                 (ui w)));
                       inflight := [ {| request := completionRequest JSON_stringify p (ui w);
                                        resume := sendMessage_resume |} ];
                       issued := issued w ++ [completionRequest JSON_stringify p (ui w)];
                       uncaught := uncaught w |}).
  { subst w1. unfold step', step. rewrite Hl. simpl.
    unfold callSendMessage. rewrite (sendMessage_awaits (ui w) key Hk Hb).
    now rewrite Hi. }
  assert (E2 : w2 = {| ui := setLoading false (setMessages (append apology) (ui w1));
                       inflight := []; issued := issued w1;
                       uncaught := uncaught w1 |}).
  { subst w2. unfold step', step. rewrite E1 at 1. simpl.
    rewrite Hres. rewrite E1. reflexivity. }
  split; [exact Hres|].
  rewrite E2. simpl. rewrite E1. simpl. unfold append.
  rewrite <- app_assoc. simpl. repeat split.
Qed.

(** C4. Every request handed to the gateway consists of the system
    instruction, then one user message with the JSON of the whole rule list
    when [seeAllRules] is set and of the focused rule alone otherwise, then
    the forwarded prior messages in their order with user mapped to user and
    ai to assistant, then the new user message; its model is "gpt-4o-mini"
    and its temperature 0.3. *)
Theorem request_layout (s : State) (rs : list Rule) (key : str) :
  apiKey = Some key ->
  allRules p = Some rs ->
  blank (input s) = false ->
  exists s1,
    sendMessage JSON_stringify apiKey p s
    = Ok (Await s1
            {| model := lit "gpt-4o-mini";
               request_messages :=
                 [ {| role := role_system; content := systemPrompt p s |};
                   {| role := role_user;
                      content :=
                        lit "Rule JSON: "
                        ++ JSON_stringify (if seeAllRules s then map Some rs
                                           else [rule p]) |} ]
                 ++ map (fun m =>
                           {| role := match sender m with
                                      | user => role_user
                                      | ai => role_assistant
                                      end;
                              content := text m |})
                        (filter (forwarded p s) (messages s))
                 ++ [ {| role := role_user; content := input s |} ];
               temperature := (3 # 10)%Q |}
            sendMessage_resume).
Proof.
  intros Hk Ha Hb. eexists. rewrite (sendMessage_awaits s key Hk Hb).
  unfold completionRequest, chatHistory, contextRules. rewrite Ha.
  destruct (seeAllRules s); reflexivity.
Qed.

End WithEnvironment.

(** C1, as stated, fails: once the assistant has replied with the text of
    the system prompt, the next send drops that reply from the history; of
    the three prior messages only two are forwarded. *)
Lemma forwarded_history_counterexample :
  let p := Sample.propsFor Sample.ruleB [Sample.edge01] in
  let s := Sample.echoed in
  hd_error (messages s) = Some {| sender := ai; text := greetingRule |} /\
  nth_error (messages s) 2 = Some {| sender := ai; text := systemPrompt p s |} /\
  length (messages s) = 3 /\
  length (filter (forwarded p s) (messages s)) = 2 /\
  sendMessage Sample.stringify (Some Sample.key) p s
  = Ok (Await (setInput [] (setLoading true
                 (setMessages (append {| sender := user; text := input s |}) s)))
              (completionRequest Sample.stringify p s)
              sendMessage_resume) /\
  map role (request_messages (completionRequest Sample.stringify p s))
  = [role_system; role_user; role_assistant; role_user; role_user] /\
  filter (forwarded p s) (messages s) <> messages s.
Proof.
  cbv zeta. repeat split; try (vm_compute; reflexivity).
  intros E. apply (f_equal (@length Message)) in E.
  vm_compute in E. discriminate.
Qed.

Lemma greeting_always_forwarded_witness :
  let p := Sample.propsFor Sample.ruleB [Sample.edge01] in
  let s := Sample.typing in
  (greetingRule = greetingRule \/ greetingRule = greetingGeneral) /\
  messages s = [ {| sender := ai; text := greetingRule |} ] /\
  Some Sample.key = Some Sample.key /\
  blank (input s) = false /\
  filter (forwarded p s) (messages s)
  = {| sender := ai; text := greetingRule |} :: filter (forwarded p s) [].
Proof.
  cbv zeta.
  assert (Hg : greetingRule = greetingRule \/ greetingRule = greetingGeneral)
    by (left; reflexivity).
  assert (Hm : messages Sample.typing
               = [ {| sender := ai; text := greetingRule |} ])
    by reflexivity.
  assert (Hb : blank (input Sample.typing) = false) by reflexivity.
  repeat (split; [assumption || reflexivity|]).
  exact (proj1 (proj2 (greeting_always_forwarded
                         Sample.stringify (Some Sample.key)
                         (Sample.propsFor Sample.ruleB [Sample.edge01])
                         Sample.typing greetingRule [] Sample.key
                         Hg Hm eq_refl Hb))).
Defined.

Lemma single_completion_in_flight_witness :
  let p := Sample.propsFor Sample.ruleB [Sample.edge01] in
  loading (ui Sample.waiting) = true /\
  step Sample.stringify (Some Sample.key) p Sample.waiting KeyDownEnter
  = Sample.waiting /\
  step Sample.stringify (Some Sample.key) p Sample.waiting ClickSend
  = Sample.waiting.
Proof.
  cbv zeta. split; [reflexivity|].
  exact (proj1 (single_completion_in_flight
                  Sample.stringify (Some Sample.key)
                  (Sample.propsFor Sample.ruleB [Sample.edge01])
                  Sample.waiting [])
               eq_refl).
Defined.

Lemma completion_failure_absorbed_witness :
  let p := Sample.propsFor Sample.ruleB [Sample.edge01] in
  let w2 := step Sample.stringify (Some Sample.key) p
                 (step Sample.stringify (Some Sample.key) p Sample.idle
                       KeyDownEnter)
                 (Settle Rejected) in
  Some Sample.key = Some Sample.key /\
  loading (ui Sample.idle) = false /\
  inflight Sample.idle = [] /\
  blank (input (ui Sample.idle)) = false /\
  (response <- await Rejected ;; firstContent response) = Throw /\
  messages (ui w2)
  = messages (ui Sample.idle)
    ++ [ {| sender := user; text := input (ui Sample.idle) |};
         {| sender := ai;
            text := lit "Sorry, I could not get a response from the AI." |} ].
Proof.
  cbv zeta.
  repeat (split; [reflexivity|]).
  exact (proj1 (proj2 (proj2 (completion_failure_absorbed
                  Sample.stringify (Some Sample.key)
                  (Sample.propsFor Sample.ruleB [Sample.edge01])
                  Sample.idle Sample.key Rejected
                  eq_refl eq_refl eq_refl eq_refl eq_refl)))).
Defined.

Lemma request_layout_witness :
  let p := Sample.propsFor Sample.ruleB [Sample.edge01] in
  let s := Sample.typing in
  Some Sample.key = Some Sample.key /\
  allRules p = Some [Sample.ruleA; Sample.ruleB] /\
  blank (input s) = false /\
  exists s1 req,
    sendMessage Sample.stringify (Some Sample.key) p s
    = Ok (Await s1 req sendMessage_resume)
    /\ model req = lit "gpt-4o-mini"
    /\ temperature req = (3 # 10)%Q
    /\ map role (request_messages req)
       = [role_system; role_user; role_assistant; role_user].
Proof.
  cbv zeta.
  repeat (split; [reflexivity|]).
  destruct (request_layout Sample.stringify (Some Sample.key)
              (Sample.propsFor Sample.ruleB [Sample.edge01])
              Sample.typing [Sample.ruleA; Sample.ruleB] Sample.key
              eq_refl eq_refl eq_refl) as [s1 E].
  exists s1. eexists. split; [exact E|].
  repeat split.
Defined.

End ChatFacts.

(** ** Search navigation *)

Module SearchFacts.
Import Js JsonPopup.

Lemma truthy_false (s : str) : truthy s = false <-> s = [].
Proof. destruct s; simpl; split; congruence. Qed.

Lemma truthy_true (s : str) : s <> [] <-> truthy s = true.
Proof. destruct s; simpl; split; congruence. Qed.

Lemma next_in_range (i n : Z) :
  (0 <= i < n)%Z -> (0 <= Z.rem (i + 1) n < n)%Z.
Proof.
  intros H. rewrite Z.rem_mod_nonneg by lia. apply Z.mod_pos_bound. lia.
Qed.

Lemma prev_in_range (i n : Z) :
  (0 <= i < n)%Z -> (0 <= Z.rem (i - 1 + n) n < n)%Z.
Proof.
  intros H. rewrite Z.rem_mod_nonneg by lia. apply Z.mod_pos_bound. lia.
Qed.

Section WithEngine.

Variable matchAll : str -> str -> result (list str).
Variable json : str.

(** On the empty text a global search finds at most the empty match. *)
Hypothesis matchAll_empty_text :
  forall term ms, matchAll term [] = Ok ms -> length ms <= 1.

Let handle := handleMatchNavigation matchAll json.
Let step' := step matchAll json.
Let total := totalMatches matchAll json.

(** What a press of an arrow does when the term has [n >= 1] matches. *)
Lemma step_navigate (d : Direction) (s : State) (n : nat) :
  total s = Ok n -> 1 <= n -> json <> [] ->
  step' s (Navigate d)
  = {| searchTerm := searchTerm s;
       currentMatchIndex := newIndex d (currentMatchIndex s) n |}.
Proof.
  unfold total, totalMatches, step', step, handleMatchNavigation.
  intros Ht Hn Hj.
  destruct (truthy (searchTerm s)) eqn:Hs; [|injection Ht as <-; lia].
  apply truthy_true in Hj. rewrite Hj. simpl.
  destruct (matchAll (searchTerm s) json) as [ms|]; simpl in *;
    [|discriminate].
  injection Ht as <-.
  destruct (Nat.eqb_spec (length ms) 0); [lia | reflexivity].
Qed.

(** Without text nothing moves. *)
Lemma step_navigate_no_text (d : Direction) (s : State) :
  json = [] -> step' s (Navigate d) = s.
Proof.
  intros Hj. apply truthy_false in Hj.
  unfold step', step, handleMatchNavigation. now rewrite Hj.
Qed.

Lemma step_inRange (s : State) (e : Event) :
  inRange matchAll json s -> inRange matchAll json (step' s e).
Proof.
  intros [H0 Hr]. destruct e as [v|d].
  - split; simpl; [lia|]. intros n _ Hn. lia.
  - destruct (truthy json) eqn:Hj.
    2:{ apply truthy_false in Hj.
        rewrite step_navigate_no_text by assumption. now split. }
    + unfold step', step, handleMatchNavigation. rewrite Hj. simpl.
      destruct (truthy (searchTerm s)) eqn:Hs; simpl; [|now split].
      destruct (matchAll (searchTerm s) json) as [ms|] eqn:Hm; simpl;
        [|now split].
      destruct (Nat.eqb_spec (length ms) 0) as [Hz|Hz]; [now split|].
      assert (Hi : (0 <= currentMatchIndex s < Z.of_nat (length ms))%Z).
      { split; [assumption|]. apply Hr; [|lia].
        unfold totalMatches. now rewrite Hs, Hm. }
      split; simpl.
      * destruct d; simpl; [apply next_in_range | apply prev_in_range];
          exact Hi.
      * intros n Hn Hn1. unfold totalMatches in Hn. simpl in Hn.
        rewrite Hs, Hm in Hn. simpl in Hn. injection Hn as <-.
        destruct d; simpl; [apply next_in_range | apply prev_in_range];
          exact Hi.
Qed.

Lemma run_inRange (es : list Event) (s : State) :
  inRange matchAll json s -> inRange matchAll json (run matchAll json s es).
Proof.
  revert s. induction es as [|e es IH]; intros s H; [assumption|].
  apply IH. now apply step_inRange.
Qed.

Lemma initial_inRange : inRange matchAll json initialState.
Proof. split; simpl; [lia|]. intros n _ Hn. lia. Qed.

(** [k] presses of NEXT move the index by [k] modulo the match count. *)
Lemma pressNext_index (k : nat) (s : State) (n : nat) :
  total s = Ok n -> 1 <= n -> json <> [] ->
  (0 <= currentMatchIndex s < Z.of_nat n)%Z ->
  pressNext matchAll json k s
  = {| searchTerm := searchTerm s;
       currentMatchIndex :=
         ((currentMatchIndex s + Z.of_nat k) mod Z.of_nat n)%Z |}.
Proof.
  intros Ht Hn Hj Hi. induction k as [|k IH].
  - simpl. rewrite Z.add_0_r, Z.mod_small by lia. now destruct s.
  - change (pressNext matchAll json (S k) s)
      with (step' (pressNext matchAll json k s) (Navigate NEXT)).
    rewrite IH.
    rewrite (step_navigate NEXT _ n); simpl; try assumption.
    f_equal. rewrite Z.rem_mod_nonneg.
    + rewrite Zplus_mod_idemp_l. f_equal. lia.
    + pose proof (Z.mod_pos_bound (currentMatchIndex s + Z.of_nat k)
                                  (Z.of_nat n)). lia.
    + lia.
Qed.

Lemma pressNext_no_text (k : nat) (s : State) :
  json = [] -> pressNext matchAll json k s = s.
Proof.
  intros Hj. induction k as [|k IH]; [reflexivity|].
  change (pressNext matchAll json (S k) s)
    with (step' (pressNext matchAll json k s) (Navigate NEXT)).
  rewrite IH. now apply step_navigate_no_text.
Qed.

(** C10. With an empty term or no match, an arrow press leaves the state as
    it is and the counter reads "0 / 0".  With a non-empty term that has
    N >= 1 matches, in every state the viewer reaches: the index designates
    one of the N matches, N presses of NEXT bring it back to where it was,
    PREV at index 0 leads to N - 1, and the counter reads the 1-based index,
    " / ", and N. *)
Theorem match_navigation_wraps
        (s0 : State) (d : Direction) (es : list Event) (ms : list str) :
  (searchTerm s0 = [] \/ matchAll (searchTerm s0) json = Ok [] ->
   handleMatchNavigation matchAll json d s0 = Ok s0 /\
   currentMatchIndex (step matchAll json s0 (Navigate d)) = currentMatchIndex s0 /\
   matchCounter matchAll json s0 = Ok (lit "0 / 0")) /\
  (let s := run matchAll json initialState es in
   let N := length ms in
   searchTerm s <> [] -> matchAll (searchTerm s) json = Ok ms -> 1 <= N ->
   (0 <= currentMatchIndex s < Z.of_nat N)%Z /\
   currentMatchIndex (pressNext matchAll json N s) = currentMatchIndex s /\
   (currentMatchIndex s = 0%Z ->
    currentMatchIndex (step matchAll json s (Navigate PREV))
    = (Z.of_nat N - 1)%Z) /\
   matchCounter matchAll json s
   = Ok (ofZ (currentMatchIndex s + 1) ++ lit " / " ++ ofNat N)).
Proof.
  split.
  - intros H.
    assert (Hh : handleMatchNavigation matchAll json d s0 = Ok s0).
    { unfold handleMatchNavigation.
      destruct (truthy json); simpl; [|reflexivity].
      destruct H as [H|H].
      - now rewrite H.
      - destruct (truthy (searchTerm s0)); simpl; [|reflexivity].
        now rewrite H. }
    split; [exact Hh|]. split.
    + unfold step. now rewrite Hh.
    + unfold matchCounter. destruct H as [H|H].
      * now rewrite H.
      * destruct (truthy (searchTerm s0)); simpl; [|reflexivity].
        now rewrite H.
  - intros s N Hs Hm HN.
    assert (Ht : total s = Ok N).
    { unfold total, totalMatches. apply truthy_true in Hs.
      now rewrite Hs, Hm. }
    destruct (run_inRange es initialState initial_inRange) as [H0 Hr].
    fold s in H0, Hr.
    assert (Hi : (0 <= currentMatchIndex s < Z.of_nat N)%Z)
      by (split; [exact H0 | now apply Hr]).
    split; [exact Hi|].
    destruct (truthy json) eqn:Hj.
    + apply truthy_true in Hj. split; [|split].
      * rewrite (pressNext_index N s N Ht HN Hj Hi). simpl.
        rewrite <- (Z.mul_1_l (Z.of_nat N)) at 1.
        rewrite Z.mod_add by lia. apply Z.mod_small. exact Hi.
      * intros Hz. fold step'. rewrite (step_navigate PREV s N Ht HN Hj).
        simpl. rewrite Hz. rewrite Z.rem_mod_nonneg by lia.
        rewrite Z.mod_small by lia. lia.
      * unfold matchCounter. apply truthy_true in Hs. rewrite Hs, Hm. simpl.
        fold N. destruct (Nat.ltb_spec 0 N); [reflexivity | lia].
    + apply truthy_false in Hj.
      assert (HN1 : N = 1).
      { rewrite Hj in Hm. pose proof (matchAll_empty_text _ _ Hm). unfold N in *. lia. }
      split; [|split].
      * now rewrite pressNext_no_text.
      * intros Hz. fold step'. rewrite step_navigate_no_text by assumption.
        rewrite Hz, HN1. reflexivity.
      * unfold matchCounter. apply truthy_true in Hs. rewrite Hs, Hm. simpl.
        fold N. destruct (Nat.ltb_spec 0 N); [reflexivity | lia].
Qed.

End WithEngine.

Lemma matchLiteral_empty_text (term : str) (ms : list str) :
  Sample.matchLiteral term [] = Ok ms -> length ms <= 1.
Proof.
  unfold Sample.matchLiteral. destruct term as [|c [|c' term]]; try discriminate.
  simpl. intros H. injection H as <-. simpl. lia.
Qed.

Lemma match_navigation_wraps_witness :
  let s := run Sample.matchLiteral Sample.rawJson initialState
               [ChangeTerm (lit "a"); Navigate NEXT] in
  (forall term ms, Sample.matchLiteral term [] = Ok ms -> length ms <= 1) /\
  searchTerm s <> [] /\
  Sample.matchLiteral (searchTerm s) Sample.rawJson
  = Ok [lit "a"; lit "a"; lit "a"] /\
  1 <= 3 /\
  currentMatchIndex s = 1%Z /\
  currentMatchIndex (pressNext Sample.matchLiteral Sample.rawJson 3 s)
  = currentMatchIndex s.
Proof.
  cbv zeta.
  assert (Hs : searchTerm (run Sample.matchLiteral Sample.rawJson initialState
                               [ChangeTerm (lit "a"); Navigate NEXT]) <> [])
    by (vm_compute; discriminate).
  assert (Hm : Sample.matchLiteral
                 (searchTerm (run Sample.matchLiteral Sample.rawJson initialState
                                  [ChangeTerm (lit "a"); Navigate NEXT]))
                 Sample.rawJson
               = Ok [lit "a"; lit "a"; lit "a"])
    by (vm_compute; reflexivity).
  assert (HN : 1 <= 3) by lia.
  split; [exact matchLiteral_empty_text|].
  split; [exact Hs|]. split; [exact Hm|]. split; [exact HN|].
  split; [vm_compute; reflexivity|].
  exact (proj1 (proj2 (proj2 (match_navigation_wraps
                         Sample.matchLiteral Sample.rawJson
                         matchLiteral_empty_text
                         initialState NEXT
                         [ChangeTerm (lit "a"); Navigate NEXT]
                         [lit "a"; lit "a"; lit "a"])
                       Hs Hm HN))).
Defined.

End SearchFacts.

(** * Further properties *)

(** ** Relationship resolution, in general *)

Module RelationshipMore.
Import Js Chat JsFacts Relationship RelationshipFacts.

Lemma In_combine_seq {A : Type} (l : list A) (a i : nat) (x : A) :
  In (i, x) (combine (seq a (length l)) l)
  <-> a <= i /\ nth_error l (i - a) = Some x.
Proof.
  revert a. induction l as [|y l IH]; intros a; simpl.
  - split; [tauto|]. intros [_ H]. now destruct (i - a).
  - rewrite IH. split.
    + intros [H | [Hle Hn]].
      * injection H as <- <-. rewrite Nat.sub_diag. split; [lia | reflexivity].
      * split; [lia|]. replace (i - a) with (S (i - S a)) by lia. exact Hn.
    + intros [Hle Hn]. destruct (Nat.eq_dec a i) as [<- | Hne].
      * rewrite Nat.sub_diag in Hn. injection Hn as <-. now left.
      * right. split; [lia|].
        replace (i - a) with (S (i - S a)) in Hn by lia. exact Hn.
Qed.

Lemma In_filter_indexed {A : Type} (f : A -> nat -> bool) (xs : list A)
      (i : nat) (x : A) :
  In (i, x) (filter_indexed f xs) <-> nth_error xs i = Some x /\ f x i = true.
Proof.
  unfold filter_indexed. rewrite filter_In, In_combine_seq, Nat.sub_0_r.
  simpl. intuition lia.
Qed.

Lemma In_positions {A : Type} (f : A -> nat -> bool) (xs : list A) (i : nat) :
  In i (map fst (filter_indexed f xs))
  <-> exists x, nth_error xs i = Some x /\ f x i = true.
Proof.
  rewrite in_map_iff. split.
  - intros [[j x] [E H]]. simpl in E. subst j. exists x.
    now apply In_filter_indexed.
  - intros [x H]. exists (i, x). split; [reflexivity|].
    now apply In_filter_indexed.
Qed.

Lemma filter_combine_seq_sorted {A : Type} (f : nat * A -> bool) (l : list A)
      (a : nat) :
  StronglySorted lt (map fst (filter f (combine (seq a (length l)) l)))
  /\ Forall (fun i => a <= i) (map fst (filter f (combine (seq a (length l)) l))).
Proof.
  revert a. induction l as [|y l IH]; intros a; simpl.
  - split; constructor.
  - destruct (IH (S a)) as [Hs Hf].
    assert (Hf' : Forall (fun i => a <= i)
                    (map fst (filter f (combine (seq (S a) (length l)) l)))).
    { eapply Forall_impl; [|exact Hf]. simpl. intros; lia. }
    destruct (f (a, y)); simpl.
    + split.
      * constructor; [exact Hs|].
        eapply Forall_impl; [|exact Hf]. simpl. intros; lia.
      * constructor; [lia | exact Hf'].
    + split; assumption.
Qed.

Lemma positions_rules {A : Type} (f : A -> nat -> bool) (xs : list A) :
  map Some (map snd (filter_indexed f xs))
  = map (nth_error xs) (map fst (filter_indexed f xs)).
Proof.
  rewrite !map_map. apply map_ext_in. intros [i x] H. simpl.
  apply In_filter_indexed in H. symmetry. apply H.
Qed.

Lemma In_childIds (p : Props) (x : str) :
  In x (childIds p) <->
  exists e, In e (edges p) /\ source e = ruleId p /\ target e = x.
Proof.
  unfold childIds. rewrite in_map_iff. split.
  - intros [e [Hs Hf]]. apply filter_In in Hf as [Hin Ht].
    apply eqb_eq in Ht. now exists e.
  - intros [e [Hin [Ht Hs]]]. exists e. split; [assumption|].
    apply filter_In. split; [assumption|]. now apply eqb_eq.
Qed.

Lemma or_else_empty (a : str) : or_else a [] = a.
Proof. now destruct a. Qed.

Lemma ruleId_popupAt (rs : list Rule) (es : list Edge) (aiPage : bool) (i : nat) :
  i < length rs -> ruleId (popupAt rs es aiPage i) = ofNat i.
Proof.
  intros H. unfold ruleId, popupAt. simpl.
  destruct (nth_error rs i) eqn:E; simpl.
  - apply or_else_empty.
  - apply nth_error_None in E. lia.
Qed.

(** X1. The parents of a rule are exactly the rules of the list whose
    position is the source of some edge that targets the rule; an edge whose
    source is no position of the list contributes nothing.  They come in
    rule-list order, whatever the order of the edges, and the rules named are
    those found at these positions. *)
Theorem parents_by_position (p : Props) :
  (forall i, In i (parentPositions p) <->
             i < length (rulesOrEmpty p)
             /\ exists e, In e (edges p) /\ target e = ruleId p
                          /\ source e = ofNat i) /\
  StronglySorted lt (parentPositions p) /\
  map Some (parentRules p)
  = map (nth_error (rulesOrEmpty p)) (parentPositions p).
Proof.
  split; [|split].
  - intros i. unfold parentPositions. rewrite In_positions.
    rewrite <- In_parentIds, <- includes_In. split.
    + intros [x [Hn Hi]]. split; [|exact Hi].
      apply nth_error_Some. congruence.
    + intros [Hlt Hi]. destruct (nth_error (rulesOrEmpty p) i) eqn:E.
      * now exists r.
      * apply nth_error_None in E. lia.
  - apply filter_combine_seq_sorted.
  - apply positions_rules.
Qed.

(** X2. Parent and child are converse: when every rule's identifier is its
    position, rule [i] is among the parents of rule [j] exactly when rule [j]
    is among the children of rule [i]. *)
Theorem parent_child_converse
        (rs : list Rule) (es : list Edge) (aiPage : bool) (i j : nat) :
  i < length rs -> j < length rs ->
  (In i (parentPositions (popupAt rs es aiPage j))
   <-> In j (childPositions (popupAt rs es aiPage i))).
Proof.
  intros Hi Hj.
  unfold parentPositions, childPositions. rewrite !In_positions.
  assert (Hex : forall k, k < length rs -> exists x, nth_error rs k = Some x).
  { intros k Hk. destruct (nth_error rs k) eqn:E; [now eexists|].
    apply nth_error_None in E. lia. }
  split.
  - intros [_ [_ H]]. apply includes_In, In_parentIds in H.
    destruct H as [e [Hin [Ht Hs]]]. rewrite ruleId_popupAt in Ht by assumption.
    destruct (Hex j Hj) as [x Hx]. exists x. split; [exact Hx|].
    apply includes_In, In_childIds. exists e. split; [exact Hin|].
    rewrite ruleId_popupAt by assumption. now split.
  - intros [_ [_ H]]. apply includes_In, In_childIds in H.
    destruct H as [e [Hin [Hs Ht]]]. rewrite ruleId_popupAt in Hs by assumption.
    destruct (Hex i Hi) as [x Hx]. exists x. split; [exact Hx|].
    apply includes_In, In_parentIds. exists e. split; [exact Hin|].
    rewrite ruleId_popupAt by assumption. now split.
Qed.

Lemma parent_child_converse_witness :
  0 < length [Sample.ruleA; Sample.ruleB] /\
  1 < length [Sample.ruleA; Sample.ruleB] /\
  (In 0 (parentPositions
           (popupAt [Sample.ruleA; Sample.ruleB] [Sample.edge01] false 1))
   <-> In 1 (childPositions
               (popupAt [Sample.ruleA; Sample.ruleB] [Sample.edge01] false 0))).
Proof.
  assert (H0 : 0 < length [Sample.ruleA; Sample.ruleB]) by (simpl; lia).
  assert (H1 : 1 < length [Sample.ruleA; Sample.ruleB]) by (simpl; lia).
  split; [exact H0|]. split; [exact H1|].
  exact (parent_child_converse [Sample.ruleA; Sample.ruleB] [Sample.edge01]
                               false 0 1 H0 H1).
Defined.

Lemma filter_indexed_none {A : Type} (f : A -> nat -> bool) (xs : list A) :
  (forall x i, f x i = false) -> filter_indexed f xs = [].
Proof.
  intros H. unfold filter_indexed.
  induction (combine (seq 0 (length xs)) xs) as [|[i x] l IH]; simpl;
    [reflexivity|].
  now rewrite H.
Qed.

(** X3. Without edges, or without a rule list (missing or empty), both
    relationship strings are "None"; nothing is thrown. *)
Theorem no_relations_none (p : Props) :
  edges p = [] \/ allRules p = None \/ allRules p = Some [] ->
  parentNames p = lit "None" /\ childNames p = lit "None".
Proof.
  intros H.
  assert (Hp : parentRules p = [] /\ childRules p = []).
  { unfold parentRules, childRules, array_filter, rulesOrEmpty.
    destruct H as [He | [Hn | Hn]].
    - rewrite !filter_indexed_none; [now split | |];
        intros _ i; unfold parentIds, childIds; now rewrite He.
    - now rewrite Hn.
    - now rewrite Hn. }
  destruct Hp as [Hp Hc]. unfold parentNames, childNames.
  now rewrite Hp, Hc.
Qed.

Lemma no_relations_none_witness :
  let p := {| rule := Some Sample.ruleB; allRules := None;
              edges := [Sample.edge01]; isAIPage := false |} in
  (edges p = [] \/ allRules p = None \/ allRules p = Some []) /\
  parentNames p = lit "None" /\ childNames p = lit "None".
Proof.
  cbv zeta.
  assert (H : edges {| rule := Some Sample.ruleB; allRules := None;
                       edges := [Sample.edge01]; isAIPage := false |} = []
              \/ allRules {| rule := Some Sample.ruleB; allRules := None;
                             edges := [Sample.edge01]; isAIPage := false |} = None
              \/ allRules {| rule := Some Sample.ruleB; allRules := None;
                             edges := [Sample.edge01]; isAIPage := false |} = Some [])
    by (right; left; reflexivity).
  split; [exact H|].
  exact (no_relations_none _ H).
Defined.

End RelationshipMore.

(** ** The rule number shown in the system prompt *)

Module PromptFacts.
Import Js Chat.







(** X19. A focused rule whose identifier does not start with a digit (after
    an optional sign; here the first code unit is neither white space, nor a
    sign, nor a digit) is announced as rule number "NaN": the identifier is
    never checked to be a position. *)
Theorem focused_rule_not_a_number (p : Props) (r : Rule) (c : char) (rest : str) :
  rule p = Some r -> id r = Some (c :: rest) ->
  isWhiteSpace c = false -> isDigit c = false ->
  c <> 45%N -> c <> 43%N ->
  parseInt (c :: rest) = None /\
  currentRuleInfo p
  = lit "The user is currently focused on rule #NaN: "
    ++ opt_or (name r) (opt_or (Name r) (lit "Unknown Rule")).
Proof.
  intros Hr Hi Hw Hd Hm Hp.
  apply N.eqb_neq in Hm, Hp.
  assert (E : parseInt (c :: rest) = None).
  { unfold parseInt. cbn [trimStart]. rewrite Hw, Hm, Hp. cbn [snd].
    now rewrite Hd. }
  split; [exact E|].
  unfold currentRuleInfo, focused, displayNumber. rewrite Hr, Hi.
  cbn [truthy]. rewrite E. reflexivity.
Qed.

Lemma focused_rule_not_a_number_witness :
  let r := {| id := Some (lit "rule-7"); name := Some (lit "RateLimit");
              Name := None; Statement := JNull |} in
  let p := {| rule := Some r; allRules := None; edges := [];
              isAIPage := false |} in
  rule p = Some r /\ id r = Some (lit "rule-7") /\
  isWhiteSpace 114%N = false /\ isDigit 114%N = false /\
  114%N <> 45%N /\ 114%N <> 43%N /\
  currentRuleInfo p
  = lit "The user is currently focused on rule #NaN: RateLimit".
Proof.
  cbv zeta.
  assert (H1 : 114%N <> 45%N) by discriminate.
  assert (H2 : 114%N <> 43%N) by discriminate.
  do 4 (split; [reflexivity|]). split; [exact H1|]. split; [exact H2|].
  exact (proj2 (focused_rule_not_a_number
                  {| rule := Some {| id := Some (lit "rule-7");
                                     name := Some (lit "RateLimit");
                                     Name := None; Statement := JNull |};
                     allRules := None; edges := []; isAIPage := false |}
                  {| id := Some (lit "rule-7"); name := Some (lit "RateLimit");
                     Name := None; Statement := JNull |}
                  114%N (lit "ule-7") eq_refl eq_refl eq_refl eq_refl H1 H2)).
Defined.

End PromptFacts.

(** ** The conversation, over whole runs *)

Module ChatMore.
Import Js Chat JsFacts ChatFacts Conversation.

Lemma trimStart_whitespace (v : str) :
  Forall (fun c => isWhiteSpace c = true) v -> trimStart v = [].
Proof.
  induction 1 as [|c v Hc _ IH]; simpl; [reflexivity|]. now rewrite Hc.
Qed.

Lemma blank_whitespace (v : str) :
  Forall (fun c => isWhiteSpace c = true) v -> blank v = true.
Proof.
  intros H. unfold blank, trim. now rewrite (trimStart_whitespace v H).
Qed.

Lemma withUi_same (w : World) : withUi w (ui w) = w.
Proof. now destruct w. Qed.

Lemma greeted_append (m : Message) (s : State) :
  greeted s -> greeted (setMessages (append m) s).
Proof.
  intros [g [rest [Hg Hm]]]. exists g, (rest ++ [m]). split; [exact Hg|].
  simpl. unfold append. now rewrite Hm.
Qed.

Lemma sendMessage_resume_greeted (o : Outcome) (cur s' : State) :
  greeted cur -> sendMessage_resume o cur = Ok s' -> greeted s'.
Proof.
  intros Hg. unfold sendMessage_resume.
  destruct o as [r|]; simpl.
  - destruct (firstContent r); simpl; intros E; injection E as <-;
      destruct Hg as [g [rest [Hg Hm]]]; eexists; eexists;
      (split; [exact Hg|]); simpl; unfold append; rewrite Hm; reflexivity.
  - intros E; injection E as <-.
    destruct Hg as [g [rest [Hg Hm]]]; eexists; eexists;
      (split; [exact Hg|]); simpl; unfold append; rewrite Hm; reflexivity.
Qed.

Lemma handleStyleChange_messages (p : Props) (v : ResponseStyle) (s : State) :
  exists g, isGreeting g
            /\ messages (handleStyleChange p v s) = [ {| sender := ai; text := g |} ].
Proof.
  unfold handleStyleChange, isGreeting. simpl.
  destruct (isAIPage p); [eexists; split; [right|]; reflexivity|].
  destruct (focused p); eexists; (split; [|reflexivity]); [left | right];
    reflexivity.
Qed.

Section WithEnvironment.

Variable JSON_stringify : list (option Rule) -> str.
Variable apiKey : option str.
Variable p : Props.

Let step' := step JSON_stringify apiKey p.
Let run' := run JSON_stringify apiKey p.

Lemma completionRequest_wellFormed (s : State) :
  greeted s -> blank (input s) = false ->
  wellFormed (completionRequest JSON_stringify p s).
Proof.
  intros [g [rest [Hg Hm]]] Hb. split; [reflexivity|]. split; [reflexivity|].
  exists (systemPrompt p s), (JSON_stringify (contextRules p s)), g,
    (map toChatMessage (filter (forwarded p s) rest)), (input s).
  split; [exact Hg|]. split; [exact Hb|].
  simpl. unfold chatHistory. rewrite Hm. simpl.
  unfold forwarded at 1. simpl.
  pose proof (greeting_not_systemPrompt p s g Hg) as Hne.
  apply eqb_neq in Hne. now rewrite Hne.
Qed.

Lemma callSendMessage_sound (w : World) :
  sound w -> sound (callSendMessage JSON_stringify apiKey p w).
Proof.
  intros [Hg [Hi Hr]]. unfold callSendMessage, sendMessage.
  destruct (blank (input (ui w))) eqn:Hb.
  - simpl. now split.
  - destruct (newOpenAI apiKey); simpl.
    + split; [|split].
      * exact (greeted_append {| sender := user; text := input (ui w) |}
                              (ui w) Hg).
      * apply Forall_app. split; [exact Hi|]. constructor; [|constructor].
        now apply completionRequest_wellFormed.
      * apply Forall_app. split; [exact Hr|]. now repeat constructor.
    + split; [|now split].
      destruct Hg as [g [rest [Hg Hm]]]. eexists; eexists.
      split; [exact Hg|]. simpl. unfold append. rewrite Hm. reflexivity.
Qed.

Lemma step_sound (w : World) (e : Event) : sound w -> sound (step' w e).
Proof.
  intros Hs. unfold step', step. destruct e.
  - destruct (negb (loading (ui w))); [now apply callSendMessage_sound | exact Hs].
  - destruct (sendDisabled (ui w)); [exact Hs | now apply callSendMessage_sound].
  - destruct (loading (ui w)); [exact Hs|]. destruct Hs as [Hg Hr]. now split.
  - destruct Hs as [_ Hr]. split; [|exact Hr].
    destruct (handleStyleChange_messages p v (ui w)) as [g [Hg Hm]].
    now exists g, [].
  - destruct Hs as [Hg Hr]. now split.
  - destruct Hs as [Hg Hr]. now split.
  - destruct (inflight w) as [|pd rest] eqn:Ei; [exact Hs|].
    destruct Hs as [Hg [Hi Hr]]. rewrite Ei in Hr.
    inversion Hr as [|? ? Hpd Hrest]; subst.
    rewrite Hpd.
    destruct (sendMessage_resume o (ui w)) as [s'|] eqn:E; simpl.
    + split; [|now split]. now apply (sendMessage_resume_greeted o (ui w)).
    + now split.
Qed.

Lemma run_sound (es : list Event) (w : World) : sound w -> sound (run' w es).
Proof.
  revert w. induction es as [|e es IH]; intros w Hs; [exact Hs|].
  apply IH, step_sound, Hs.
Qed.

Lemma initial_sound : sound initialWorld.
Proof.
  split; [|split; constructor].
  exists greetingRule, []. split; [now left | reflexivity].
Qed.

(** X5. An input that is empty or made of white space only sends nothing:
    Enter and the Send button leave the whole world as it is (no message
    appended, no request issued, the input kept). *)
Theorem blank_input_ignored (w : World) (e : Event) :
  Forall (fun c => isWhiteSpace c = true) (input (ui w)) ->
  e = KeyDownEnter \/ e = ClickSend ->
  step' w e = w /\
  sendMessage JSON_stringify apiKey p (ui w) = Ok (Return (ui w)).
Proof.
  intros Hws He. apply blank_whitespace in Hws.
  assert (Hs : sendMessage JSON_stringify apiKey p (ui w) = Ok (Return (ui w)))
    by (unfold sendMessage; now rewrite Hws).
  split; [|exact Hs].
  unfold step', step, sendDisabled, callSendMessage.
  destruct He as [-> | ->].
  - destruct (loading (ui w)); simpl; [reflexivity|].
    rewrite Hs. apply withUi_same.
  - rewrite Hws. now rewrite orb_true_r.
Qed.

(** X6. When the completion arrives with a first choice carrying a message,
    [sendMessage] appends exactly that text as an assistant message and
    clears the loading flag, on whatever state is current; the other choices
    are not looked at.  A whole send from an idle popup ends with the
    question and the reply appended, one request issued and none in
    flight. *)
Theorem completion_success_appended
        (w : World) (key : str) (reply : str) (others : list Choice) :
  apiKey = Some key ->
  loading (ui w) = false -> inflight w = [] ->
  blank (input (ui w)) = false ->
  let o := Fulfilled {| choices := {| message := Some reply |} :: others |} in
  let answer := {| sender := ai; text := reply |} in
  let w1 := step' w KeyDownEnter in
  let w2 := step' w1 (Settle o) in
  (forall cur, sendMessage_resume o cur
               = Ok (setLoading false (setMessages (append answer) cur))) /\
  loading (ui w1) = true /\ input (ui w1) = [] /\
  messages (ui w2)
  = messages (ui w) ++ [ {| sender := user; text := input (ui w) |}; answer ] /\
  loading (ui w2) = false /\
  issued w2 = issued w ++ [completionRequest JSON_stringify p (ui w)] /\
  inflight w2 = [] /\
  uncaught w2 = uncaught w.
Proof.
  intros Hk Hl Hi Hb o answer w1 w2.
  assert (Hres : forall cur, sendMessage_resume o cur
                 = Ok (setLoading false (setMessages (append answer) cur)))
    by reflexivity.
  assert (E1 : w1 = {| ui := setInput [] (setLoading true
                              (setMessages
                                 (append {| sender := user; text := input (ui w) |})
                                 (ui w)));
                       inflight := [ {| request := completionRequest JSON_stringify p (ui w);
                                        resume := sendMessage_resume |} ];
                       issued := issued w ++ [completionRequest JSON_stringify p (ui w)];
                       uncaught := uncaught w |}).
  { subst w1. unfold step', step. rewrite Hl. simpl.
    unfold callSendMessage.
    rewrite (sendMessage_awaits JSON_stringify apiKey p (ui w) key Hk Hb).
    now rewrite Hi. }
  assert (E2 : w2 = {| ui := setLoading false (setMessages (append answer) (ui w1));
                       inflight := []; issued := issued w1;
                       uncaught := uncaught w1 |}).
  { subst w2. unfold step', step. rewrite E1 at 1. simpl.
    rewrite E1. reflexivity. }
  split; [exact Hres|].
  rewrite E2. simpl. rewrite E1. simpl. unfold append.
  rewrite <- app_assoc. simpl. repeat split.
Qed.

(** X7. Changing the response style while a completion is outstanding does
    not cancel it: the conversation is reset to a greeting, the loading flag
    stays set, and when the reply arrives it is appended to the fresh
    conversation, which then consists of the greeting and the reply only; the
    question it answers is gone. *)
Theorem style_change_keeps_request
        (w : World) (key : str) (v : ResponseStyle) (reply : str)
        (others : list Choice) :
  apiKey = Some key ->
  loading (ui w) = false -> inflight w = [] ->
  blank (input (ui w)) = false ->
  let o := Fulfilled {| choices := {| message := Some reply |} :: others |} in
  let w1 := step' w KeyDownEnter in
  let w2 := step' w1 (StyleChange v) in
  let w3 := step' w2 (Settle o) in
  loading (ui w2) = true /\ length (inflight w2) = 1 /\
  responseStyle (ui w3) = v /\ loading (ui w3) = false /\
  inflight w3 = [] /\
  exists g, isGreeting g /\
            messages (ui w2) = [ {| sender := ai; text := g |} ] /\
            messages (ui w3) = [ {| sender := ai; text := g |};
                                 {| sender := ai; text := reply |} ].
Proof.
  intros Hk Hl Hi Hb o w1 w2 w3.
  assert (E1 : w1 = {| ui := setInput [] (setLoading true
                              (setMessages
                                 (append {| sender := user; text := input (ui w) |})
                                 (ui w)));
                       inflight := [ {| request := completionRequest JSON_stringify p (ui w);
                                        resume := sendMessage_resume |} ];
                       issued := issued w ++ [completionRequest JSON_stringify p (ui w)];
                       uncaught := uncaught w |}).
  { subst w1. unfold step', step. rewrite Hl. simpl.
    unfold callSendMessage.
    rewrite (sendMessage_awaits JSON_stringify apiKey p (ui w) key Hk Hb).
    now rewrite Hi. }
  destruct (handleStyleChange_messages p v (ui w1)) as [g [Hg Hm]].
  subst w3 w2. unfold step', step. rewrite E1. simpl.
  rewrite E1 in Hm. simpl in Hm.
  repeat split. exists g. split; [exact Hg|].
  unfold handleStyleChange in *. simpl in *. unfold append.
  split; [exact Hm | now rewrite Hm].
Qed.

(** X8. Every request the component ever hands to the gateway, in any run
    from the initial popup, carries the fixed model and temperature, starts
    with the system message, the rule JSON and the synthetic greeting, and
    ends with a non-blank user message; and the conversation always opens
    with a synthetic greeting, whatever was sent, received or reset. *)
Theorem requests_always_well_formed (es : list Event) :
  let w := run' initialWorld es in
  Forall wellFormed (issued w) /\ greeted (ui w).
Proof.
  cbv zeta. destruct (run_sound es initialWorld initial_sound) as [Hg [Hi _]].
  now split.
Qed.

End WithEnvironment.

Lemma blank_input_ignored_witness :
  let p := Sample.propsFor Sample.ruleB [Sample.edge01] in
  let w := {| ui := setInput (lit "   ") initialState; inflight := [];
              issued := []; uncaught := 0 |} in
  Forall (fun c => isWhiteSpace c = true) (input (ui w)) /\
  (ClickSend = KeyDownEnter \/ ClickSend = ClickSend) /\
  step Sample.stringify (Some Sample.key) p w ClickSend = w.
Proof.
  cbv zeta.
  assert (H : Forall (fun c => isWhiteSpace c = true) (lit "   "))
    by (repeat constructor).
  split; [exact H|]. split; [right; reflexivity|].
  exact (proj1 (blank_input_ignored Sample.stringify (Some Sample.key)
                  (Sample.propsFor Sample.ruleB [Sample.edge01])
                  {| ui := setInput (lit "   ") initialState; inflight := [];
                     issued := []; uncaught := 0 |}
                  ClickSend H (or_intror eq_refl))).
Defined.

Lemma completion_success_appended_witness :
  let p := Sample.propsFor Sample.ruleB [Sample.edge01] in
  let o := Fulfilled {| choices := [ {| message := Some (lit "It blocks bots.") |} ] |} in
  let w2 := step Sample.stringify (Some Sample.key) p
                 (step Sample.stringify (Some Sample.key) p Sample.idle
                       KeyDownEnter)
                 (Settle o) in
  Some Sample.key = Some Sample.key /\
  loading (ui Sample.idle) = false /\
  inflight Sample.idle = [] /\
  blank (input (ui Sample.idle)) = false /\
  messages (ui w2)
  = messages (ui Sample.idle)
    ++ [ {| sender := user; text := input (ui Sample.idle) |};
         {| sender := ai; text := lit "It blocks bots." |} ].
Proof.
  cbv zeta.
  repeat (split; [reflexivity|]).
  exact (proj1 (proj2 (proj2 (proj2 (completion_success_appended
                  Sample.stringify (Some Sample.key)
                  (Sample.propsFor Sample.ruleB [Sample.edge01])
                  Sample.idle Sample.key (lit "It blocks bots.") []
                  eq_refl eq_refl eq_refl eq_refl))))).
Defined.

Lemma style_change_keeps_request_witness :
  let p := Sample.propsFor Sample.ruleB [Sample.edge01] in
  let o := Fulfilled {| choices := [ {| message := Some (lit "It blocks bots.") |} ] |} in
  let w3 := step Sample.stringify (Some Sample.key) p
              (step Sample.stringify (Some Sample.key) p
                 (step Sample.stringify (Some Sample.key) p Sample.idle
                       KeyDownEnter)
                 (StyleChange bullet))
              (Settle o) in
  Some Sample.key = Some Sample.key /\
  loading (ui Sample.idle) = false /\
  inflight Sample.idle = [] /\
  blank (input (ui Sample.idle)) = false /\
  responseStyle (ui w3) = bullet /\ loading (ui w3) = false.
Proof.
  cbv zeta.
  do 4 (split; [reflexivity|]).
  pose proof (style_change_keeps_request
                Sample.stringify (Some Sample.key)
                (Sample.propsFor Sample.ruleB [Sample.edge01])
                Sample.idle Sample.key bullet (lit "It blocks bots.") []
                eq_refl eq_refl eq_refl eq_refl) as H.
  cbv zeta in H. destruct H as [_ [_ [Hs [Hl _]]]].
  split; [exact Hs | exact Hl].
Defined.

End ChatMore.

(** ** Manual scrolling and the animation frames *)

Module ScrollMore.
Import Scrolling.

Local Open Scope Q_scope.

Lemma ltb_lt (a b : Q) : ltb a b = true <-> a < b.
Proof.
  unfold ltb. rewrite negb_true_iff. split.
  - intros H. apply Qnot_le_lt. intros Hle.
    apply Qle_bool_iff in Hle. congruence.
  - intros H. destruct (Qle_bool b a) eqn:E; [|reflexivity].
    apply Qle_bool_iff in E. lra.
Qed.

Lemma ltb_ge (a b : Q) : ltb a b = false <-> b <= a.
Proof.
  unfold ltb. rewrite negb_false_iff. apply Qle_bool_iff.
Qed.

Lemma geb_ge (a b : Q) : geb a b = true <-> b <= a.
Proof. apply Qle_bool_iff. Qed.

Lemma geb_lt (a b : Q) : geb a b = false <-> a < b.
Proof.
  unfold geb. split.
  - intros H. apply Qnot_le_lt. intros Hle.
    apply Qle_bool_iff in Hle. congruence.
  - intros H. destruct (Qle_bool b a) eqn:E; [|reflexivity].
    apply Qle_bool_iff in E. lra.
Qed.

(** X9. A scroll event always records the new offset.  Within 50 of the
    bottom it clears the override flag; on a move upwards that ends more than
    100 above the bottom it sets the flag; in every other case (a move
    downwards or sideways, or a move upwards that ends between 100 and 50
    above the bottom) the flag keeps its value. *)
Theorem manual_scroll_override (c : Container) (s : ScrollState) :
  let current := scrollTop c in
  let maxTop := scrollHeight c - clientHeight c in
  let s' := handleScroll c s in
  lastScrollTop s' = current /\
  (maxTop - 50 <= current -> userScrolledUp s' = false) /\
  (current < lastScrollTop s -> current < maxTop - 100 ->
   userScrolledUp s' = true) /\
  (current < maxTop - 50 ->
   lastScrollTop s <= current \/ maxTop - 100 <= current ->
   userScrolledUp s' = userScrolledUp s).
Proof.
  cbv zeta. unfold handleScroll.
  set (current := scrollTop c).
  set (maxTop := scrollHeight c - clientHeight c).
  split; [reflexivity|]. split; [|split].
  - intros H. apply geb_ge in H. now rewrite H.
  - intros H1 H2.
    assert (Hn : geb current (maxTop - 50) = false) by (apply geb_lt; lra).
    apply ltb_lt in H1, H2. now rewrite H1, H2, Hn.
  - intros H1 H2. apply geb_lt in H1. rewrite H1.
    destruct H2 as [H2 | H2]; apply ltb_ge in H2; rewrite H2; simpl;
      [reflexivity | now rewrite andb_false_r].
Qed.

Lemma manual_scroll_override_witness :
  let c := {| scrollTop := 300; scrollHeight := 1000; clientHeight := 400 |} in
  let s := {| userScrolledUp := false; lastScrollTop := 600 |} in
  scrollTop c < lastScrollTop s /\
  scrollTop c < scrollHeight c - clientHeight c - 100 /\
  userScrolledUp (handleScroll c s) = true.
Proof.
  cbv zeta.
  assert (H1 : 300 < 600) by reflexivity.
  assert (H2 : 300 < 1000 - 400 - 100) by reflexivity.
  split; [exact H1|]. split; [exact H2|].
  exact (proj1 (proj2 (proj2 (manual_scroll_override
                  {| scrollTop := 300; scrollHeight := 1000; clientHeight := 400 |}
                  {| userScrolledUp := false; lastScrollTop := 600 |})))
               H1 H2).
Defined.







End ScrollMore.

(** ** Trimming and splitting *)

Module TrimFacts.
Import Js Rendering.

Lemma trimStart_fixed (s : str) :
  (forall c, hd_error s = Some c -> isWhiteSpace c = false) -> trimStart s = s.
Proof.
  destruct s as [|c s]; intros H; [reflexivity|]. simpl.
  now rewrite (H c eq_refl).
Qed.

Lemma trimStart_head (s : str) (c : char) :
  hd_error (trimStart s) = Some c -> isWhiteSpace c = false.
Proof.
  induction s as [|x s IH]; simpl; [discriminate|].
  destruct (isWhiteSpace x) eqn:E; [exact IH|].
  simpl. intros H. injection H as <-. exact E.
Qed.

Lemma trimStart_idempotent (s : str) : trimStart (trimStart s) = trimStart s.
Proof. apply trimStart_fixed. intros c. apply trimStart_head. Qed.

(** [trimStart] keeps a suffix, after a run of white space. *)
Lemma trimStart_suffix (s : str) :
  exists ws, s = ws ++ trimStart s /\ Forall (fun c => isWhiteSpace c = true) ws.
Proof.
  induction s as [|x s [ws [E H]]]; simpl.
  - exists []. split; [reflexivity | constructor].
  - destruct (isWhiteSpace x) eqn:Ex.
    + exists (x :: ws). split; [simpl; now f_equal | now constructor].
    + exists []. split; [reflexivity | constructor].
Qed.

Lemma In_trimStart (s : str) (c : char) : In c (trimStart s) -> In c s.
Proof.
  destruct (trimStart_suffix s) as [ws [E _]]. intros H.
  rewrite E. apply in_or_app. now right.
Qed.

Lemma In_trim (s : str) (c : char) : In c (trim s) -> In c s.
Proof.
  unfold trim, trimEnd. intros H. apply In_trimStart.
  apply in_rev in H. apply In_trimStart in H. now apply in_rev in H.
Qed.

Lemma clean_trim_fixed (s : str) : clean s -> trim s = s.
Proof.
  intros [H1 H2]. unfold trim, trimEnd. rewrite H1, H2. apply rev_involutive.
Qed.

Lemma hd_error_app_nonempty (a b : str) (c : char) :
  hd_error a = Some c -> hd_error (a ++ b) = Some c.
Proof. destruct a; simpl; [discriminate | trivial]. Qed.

Lemma trim_clean (s : str) : clean (trim s).
Proof.
  unfold clean, trim, trimEnd. split.
  - apply trimStart_fixed. intros c Hc.
    destruct (trimStart_suffix (rev (trimStart s))) as [ws [E _]].
    apply (f_equal (@rev char)) in E. rewrite rev_involutive, rev_app_distr in E.
    apply (trimStart_head s). rewrite E.
    now apply hd_error_app_nonempty.
  - rewrite rev_involutive. apply trimStart_idempotent.
Qed.

Lemma trim_idempotent (s : str) : trim (trim s) = trim s.
Proof. apply clean_trim_fixed, trim_clean. Qed.

(** Dropping the first code unit and the white space after it keeps the
    string clean. *)
Lemma clean_tail (c : char) (r : str) : clean (c :: r) -> clean (trimStart r).
Proof.
  intros [_ H2]. split; [apply trimStart_idempotent|].
  apply trimStart_fixed. intros x Hx.
  destruct (trimStart_suffix r) as [ws [E _]].
  apply (trimStart_head (rev (c :: r))). rewrite H2.
  simpl. rewrite E at 1. rewrite rev_app_distr, <- app_assoc.
  now apply hd_error_app_nonempty.
Qed.

(** No piece of a split contains a separator. *)
Lemma split_on_pieces (sep : char -> bool) (s piece : str) (c : char) :
  In piece (split_on sep s) -> In c piece -> sep c = false.
Proof.
  revert piece. induction s as [|x s IH]; simpl; intros piece.
  - intros [<- | []] [].
  - destruct (sep x) eqn:Ex.
    + intros [<- | H]; [intros [] | now apply IH].
    + destruct (split_on sep s) as [|y ys]; simpl.
      * intros [<- | []] [<- | []]. exact Ex.
      * intros [<- | H] Hc.
        -- destruct Hc as [<- | Hc]; [exact Ex|].
           apply (IH y); [now left | exact Hc].
        -- apply (IH piece); [now right | exact Hc].
Qed.

End TrimFacts.

(** ** Tables and bullet lists, in general *)

Module RenderMore.
Import Js Chat Rendering TrimFacts.

Lemma cells_spec (line cell : str) :
  In cell (cells line) ->
  cell <> [] /\ trim cell = cell /\ ~ In PIPE cell.
Proof.
  unfold cells. intros H. apply filter_In in H as [H Ht].
  apply in_map_iff in H as [piece [<- Hp]]. split; [|split].
  - intros E. now rewrite E in Ht.
  - apply trim_idempotent.
  - intros Hin. apply In_trim in Hin.
    pose proof (split_on_pieces (N.eqb PIPE) line piece PIPE Hp Hin) as Hs.
    now rewrite N.eqb_refl in Hs.
Qed.

(** X11. In a parsed table every header cell and every body cell is
    non-empty, has no white space at either end and contains no [|]; and
    there are two body rows fewer than table lines, the row after the header
    being dropped whatever it holds. *)
Theorem table_cells_clean (md : str) (t : MarkdownTable) :
  parseMarkdownTable md = Some t ->
  (forall cell, In cell (header t) \/ (exists row, In row (rows t) /\ In cell row) ->
                cell <> [] /\ trim cell = cell /\ ~ In PIPE cell) /\
  length (rows t) = length (tableLines md) - 2.
Proof.
  unfold parseMarkdownTable.
  destruct (length (tableLines md) <? 2); [discriminate|].
  intros E. injection E as <-. cbn [rows header]. split.
  - intros cell [H | [row [Hr Hc]]].
    + now apply (cells_spec (nth 0 (tableLines md) [])).
    + apply in_map_iff in Hr as [line [<- _]]. now apply (cells_spec line).
  - rewrite length_map.
    change (length (skipn 2 (tableLines md)) = length (tableLines md) - 2).
    apply length_skipn.
Qed.

Lemma table_cells_clean_witness :
  parseMarkdownTable Sample.tableText
  = Some {| header := [lit "A"; lit "B"]; rows := [[lit "1"; lit "2"]] |} /\
  length (rows {| header := [lit "A"; lit "B"]; rows := [[lit "1"; lit "2"]] |})
  = length (tableLines Sample.tableText) - 2.
Proof.
  assert (H : parseMarkdownTable Sample.tableText
              = Some {| header := [lit "A"; lit "B"];
                        rows := [[lit "1"; lit "2"]] |})
    by (vm_compute; reflexivity).
  split; [exact H|].
  exact (proj2 (table_cells_clean Sample.tableText _ H)).
Defined.

Lemma bulletLines_clean (t line : str) :
  In line (bulletLines t) ->
  clean line /\ forall c, In c line -> N.eqb c LF || N.eqb c CR = false.
Proof.
  unfold bulletLines. intros H. apply filter_In in H as [H _].
  apply in_map_iff in H as [piece [<- Hp]]. split; [apply trim_clean|].
  intros c Hc. apply In_trim in Hc.
  exact (split_on_pieces _ t piece c Hp Hc).
Qed.

Lemma stripMarker_clean (line : str) : clean line -> clean (stripMarker line).
Proof.
  intros H. destruct line as [|c r]; [exact H|]. simpl.
  destruct (N.eqb c DASH || N.eqb c BULLET); [|exact H].
  now apply (clean_tail c).
Qed.

Lemma In_stripMarker (line : str) (c : char) :
  In c (stripMarker line) -> In c line.
Proof.
  destruct line as [|x r]; [trivial|]. simpl.
  destruct (N.eqb x DASH || N.eqb x BULLET); [|trivial].
  intros H. right. now apply In_trimStart.
Qed.

(** X12. Every item of a bullet list is a single line without white space at
    either end: trimming it changes nothing, and it contains neither a line
    feed nor a carriage return.  There are at most as many items as lines in
    the reply. *)
Theorem bullet_items_single_lines (t item : str) :
  In item (bulletItems t) ->
  trim item = item /\ ~ In LF item /\ ~ In CR item /\
  length (bulletItems t)
  <= length (split_on (fun c => N.eqb c LF || N.eqb c CR) t).
Proof.
  unfold bulletItems. intros H.
  apply in_map_iff in H as [line [<- Hl]].
  destruct (bulletLines_clean t line Hl) as [Hc Hn].
  split; [|split; [|split]].
  - apply clean_trim_fixed. now apply stripMarker_clean.
  - intros Hin. apply In_stripMarker in Hin. specialize (Hn LF Hin).
    now rewrite N.eqb_refl in Hn.
  - intros Hin. apply In_stripMarker in Hin. specialize (Hn CR Hin).
    rewrite N.eqb_refl in Hn. now rewrite orb_true_r in Hn.
  - rewrite length_map. unfold bulletLines.
    etransitivity; [apply filter_length_le|]. now rewrite length_map.
Qed.

Lemma bullet_items_single_lines_witness :
  In (lit "ignored blank") (bulletItems Sample.bulletText) /\
  trim (lit "ignored blank") = lit "ignored blank".
Proof.
  assert (H : In (lit "ignored blank") (bulletItems Sample.bulletText))
    by (vm_compute; tauto).
  split; [exact H|].
  exact (proj1 (bullet_items_single_lines Sample.bulletText _ H)).
Defined.

End RenderMore.

(** ** The JSON block renderer *)

Module JsonBlockFacts.
Import Js Chat Rendering.

Lemma startsWith_fence_head (s : str) :
  startsWith s fence = true -> hd_error s = Some BACKTICK.
Proof.
  destruct s as [|c s]; [discriminate|]. unfold fence. cbn [startsWith].
  intros H. apply andb_true_iff in H as [H _].
  apply N.eqb_eq in H. now subst.
Qed.

Lemma afterTag_head (s rest : str) :
  afterTag s = Some rest -> hd_error s = Some BACKTICK.
Proof.
  destruct s as [|b1 [|b2 [|b3 [|j [|s' [|o [|n r]]]]]]]; cbn [afterTag];
    try discriminate.
  destruct (N.eqb_spec b1 BACKTICK) as [-> | _]; [reflexivity|].
  cbn [andb]. discriminate.
Qed.

Lemma matchFence_plain (s : str) : ~ In BACKTICK s -> matchFence s = None.
Proof.
  induction s as [|c s IH]; intros H; [reflexivity|].
  cbn [matchFence].
  destruct (afterTag (c :: s)) as [rest|] eqn:E.
  - apply afterTag_head in E. simpl in E. injection E as ->.
    elim H. now left.
  - apply IH. intros Hin. apply H. now right.
Qed.

Lemma stripFences_plain (s : str) : ~ In BACKTICK s -> stripFences 0 s = s.
Proof.
  induction s as [|c s IH]; intros H; [reflexivity|].
  cbn [stripFences].
  destruct (startsWith (c :: s) fence) eqn:E.
  - apply startsWith_fence_head in E. simpl in E. injection E as ->.
    elim H. now left.
  - f_equal. apply IH. intros Hin. apply H. now right.
Qed.

Lemma startsWith_nil (s : str) : startsWith s [] = true.
Proof. now destruct s. Qed.

Lemma startsWith_fence_app (post : str) : startsWith (fence ++ post) fence = true.
Proof.
  unfold fence. cbn [app startsWith]. rewrite !N.eqb_refl.
  now rewrite startsWith_nil.
Qed.

Lemma beforeFence_body (body post : str) :
  ~ In BACKTICK body -> beforeFence (body ++ fence ++ post) = Some body.
Proof.
  induction body as [|c body IH]; intros H.
  - cbn [app]. pose proof (startsWith_fence_app post) as E.
    destruct (fence ++ post) eqn:Ef; [discriminate|].
    cbn [beforeFence]. now rewrite E.
  - cbn [app beforeFence].
    destruct (startsWith (c :: body ++ fence ++ post) fence) eqn:E.
    + apply startsWith_fence_head in E. simpl in E. injection E as ->.
      elim H. now left.
    + rewrite IH; [reflexivity|]. intros Hin. apply H. now right.
Qed.

Lemma matchFence_unfold (s : str) :
  matchFence s
  = match (match afterTag s with
           | Some rest => beforeFence rest
           | None => None
           end) with
    | Some body => Some body
    | None => match s with
              | [] => None
              | _ :: s' => matchFence s'
              end
    end.
Proof. now destruct s. Qed.

Lemma afterTag_tag (rest : str) (j s o n : char) :
  letter_ci 106%N j = true -> letter_ci 115%N s = true ->
  letter_ci 111%N o = true -> letter_ci 110%N n = true ->
  afterTag (fence ++ [j; s; o; n] ++ rest) = Some rest.
Proof.
  intros Hj Hs Ho Hn. unfold fence. cbn [app afterTag].
  now rewrite !N.eqb_refl, Hj, Hs, Ho, Hn.
Qed.

Lemma matchFence_block (pre body post : str) (j s o n : char) :
  ~ In BACKTICK pre -> ~ In BACKTICK body ->
  letter_ci 106%N j = true -> letter_ci 115%N s = true ->
  letter_ci 111%N o = true -> letter_ci 110%N n = true ->
  matchFence (pre ++ fence ++ [j; s; o; n] ++ body ++ fence ++ post)
  = Some body.
Proof.
  intros Hpre Hbody Hj Hs Ho Hn. induction pre as [|c pre IH].
  - change (matchFence (fence ++ [j; s; o; n] ++ body ++ fence ++ post)
            = Some body).
    rewrite matchFence_unfold.
    rewrite (afterTag_tag (body ++ fence ++ post) j s o n Hj Hs Ho Hn).
    now rewrite (beforeFence_body body post Hbody).
  - change (matchFence (c :: (pre ++ fence ++ [j; s; o; n] ++ body ++ fence ++ post))
            = Some body).
    rewrite matchFence_unfold.
    destruct (afterTag (c :: pre ++ fence ++ [j; s; o; n] ++ body ++ fence ++ post))
      as [rest|] eqn:E.
    + apply afterTag_head in E. simpl in E. injection E as ->.
      elim Hpre. now left.
    + apply IH. intros Hin. apply Hpre. now right.
Qed.

Section WithJson.

Variable JSON_parse : str -> result JsonValue.
Variable JSON_pretty : JsonValue -> str.

(** X13. A reply without any backtick is parsed as a whole: when it is JSON
    its pretty-printed form is shown, and when parsing throws the reply
    itself is shown, unchanged; nothing is thrown further. *)
Theorem json_block_unfenced (text : str) :
  ~ In BACKTICK text ->
  renderJsonBlock JSON_parse JSON_pretty text
  = match JSON_parse text with
    | Ok value => Pre (JSON_pretty value)
    | Throw => Pre text
    end.
Proof.
  intros H. unfold renderJsonBlock.
  now rewrite (matchFence_plain text H), (stripFences_plain text H).
Qed.

(** X14. When the reply holds a fenced block (three backticks, "json" in any
    letter case, a body without backticks, three backticks) after a preamble
    without backticks, only the body is parsed: the text around the block
    is ignored.  If the body is not JSON, the whole reply is shown raw. *)
Theorem json_block_fenced (pre body post : str) (j s o n : char) :
  ~ In BACKTICK pre -> ~ In BACKTICK body ->
  letter_ci 106%N j = true -> letter_ci 115%N s = true ->
  letter_ci 111%N o = true -> letter_ci 110%N n = true ->
  let text := pre ++ fence ++ [j; s; o; n] ++ body ++ fence ++ post in
  renderJsonBlock JSON_parse JSON_pretty text
  = match JSON_parse body with
    | Ok value => Pre (JSON_pretty value)
    | Throw => Pre text
    end.
Proof.
  intros Hpre Hbody Hj Hs Ho Hn text. unfold renderJsonBlock. subst text.
  now rewrite (matchFence_block pre body post j s o n Hpre Hbody Hj Hs Ho Hn).
Qed.

End WithJson.

Lemma json_block_unfenced_witness :
  ~ In BACKTICK (lit "not json") /\
  renderJsonBlock Sample.parseNothing Sample.prettyNull (lit "not json")
  = Pre (lit "not json").
Proof.
  assert (H : ~ In BACKTICK (lit "not json"))
    by (vm_compute; intuition discriminate).
  split; [exact H|].
  exact (json_block_unfenced Sample.parseNothing Sample.prettyNull
                             (lit "not json") H).
Defined.

Lemma json_block_fenced_witness :
  ~ In BACKTICK (lit "Here: ") /\ ~ In BACKTICK (lit "null") /\
  letter_ci 106%N 74%N = true /\ letter_ci 115%N 115%N = true /\
  letter_ci 111%N 79%N = true /\ letter_ci 110%N 110%N = true /\
  renderJsonBlock Sample.parseNull Sample.prettyNull
                  (lit "Here: ```JsOnnull``` done")
  = Pre (lit "null").
Proof.
  assert (H1 : ~ In BACKTICK (lit "Here: "))
    by (vm_compute; intuition discriminate).
  assert (H2 : ~ In BACKTICK (lit "null"))
    by (vm_compute; intuition discriminate).
  split; [exact H1|]. split; [exact H2|].
  do 4 (split; [reflexivity|]).
  exact (json_block_fenced Sample.parseNull Sample.prettyNull
           (lit "Here: ") (lit "null") (lit " done") 74%N 115%N 79%N 110%N
           H1 H2 eq_refl eq_refl eq_refl eq_refl).
Defined.

End JsonBlockFacts.

(** ** The prose renderer *)

Module ProseFacts.
Import Js Chat Rendering TrimFacts.

Lemma headings_plain (s : str) (lineStart : bool) :
  ~ In HASH s -> headings (Outside lineStart) s = s.
Proof.
  revert lineStart. induction s as [|c s IH]; intros b H; [reflexivity|].
  cbn [headings].
  destruct (N.eqb_spec c HASH) as [-> | _]; [elim H; now left|].
  rewrite andb_false_r. f_equal. apply IH. intros Hin. apply H. now right.
Qed.

Lemma bolds_plain (s : str) : ~ In STAR s -> bolds 0 s = s.
Proof.
  induction s as [|c s IH]; intros H; [reflexivity|].
  cbn [bolds startsWith].
  destruct (N.eqb_spec STAR c) as [<- | _]; [elim H; now left|].
  cbn [andb]. f_equal. apply IH. intros Hin. apply H. now right.
Qed.

Lemma breaks_plain (s : str) : ~ In LF s -> breaks s = s.
Proof.
  induction s as [|c s IH]; intros H; [reflexivity|].
  cbn [breaks].
  destruct (N.eqb_spec c LF) as [-> | _]; [elim H; now left|].
  f_equal. apply IH. intros Hin. apply H. now right.
Qed.


Lemma headings_title (s acc : str) :
  (forall c, In c s -> isLineTerminator c = false) ->
  headings (InTitle acc) s = bold (trim (acc ++ s)).
Proof.
  revert acc. induction s as [|c s IH]; intros acc H.
  - now rewrite app_nil_r.
  - cbn [headings]. rewrite (H c) by now left.
    rewrite IH by (intros x Hx; apply H; now right).
    now rewrite <- app_assoc.
Qed.

Lemma headings_title_start (title : str) (st : HeadingScan) :
  st = InHashes \/ st = InSpace ->
  (forall c, In c title -> isLineTerminator c = false) ->
  (forall c, hd_error title = Some c -> isWhiteSpace c = false /\ c <> HASH) ->
  headings st title = bold (trim title).
Proof.
  intros Hst Hlt Hhd. destruct title as [|c r].
  - destruct Hst as [-> | ->]; reflexivity.
  - destruct (Hhd c eq_refl) as [Hw Hh].
    apply N.eqb_neq in Hh.
    destruct Hst as [-> | ->]; cbn [headings]; rewrite ?Hh, Hw;
      apply headings_title; intros x Hx; apply Hlt; now right.
Qed.

Lemma headings_space (ws title : str) :
  Forall (fun c => isWhiteSpace c = true) ws ->
  (forall c, In c title -> isLineTerminator c = false) ->
  (forall c, hd_error title = Some c -> isWhiteSpace c = false /\ c <> HASH) ->
  headings InSpace (ws ++ title) = bold (trim title).
Proof.
  intros Hws Hlt Hhd. induction Hws as [|w ws Hw _ IH].
  - apply headings_title_start; [now right | assumption | assumption].
  - cbn [app headings]. now rewrite Hw.
Qed.

Lemma headings_hashes (k : nat) (ws title : str) :
  Forall (fun c => isWhiteSpace c = true) ws ->
  (forall c, In c title -> isLineTerminator c = false) ->
  (forall c, hd_error title = Some c -> isWhiteSpace c = false /\ c <> HASH) ->
  headings InHashes (repeat HASH k ++ ws ++ title) = bold (trim title).
Proof.
  intros Hws Hlt Hhd. induction k as [|k IH].
  - cbn [repeat app]. destruct Hws as [|w ws Hw Hws'].
    + apply headings_title_start; [now left | assumption | assumption].
    + cbn [app headings].
      destruct (N.eqb_spec w HASH) as [-> | _]; [discriminate Hw|].
      rewrite Hw. now apply headings_space.
  - cbn [repeat app headings]. now rewrite N.eqb_refl.
Qed.

Section WithJsonRenderer.

Variable renderJson : str -> Rendered.

(** X15. The prose styles do not escape anything: a reply without "#", "*"
    and line feed is handed to the page as markup exactly as it came, angle
    brackets and all, in each of the styles concise, detailed and human. *)
Theorem prose_passes_markup (text : str) (style : ResponseStyle) :
  ~ In HASH text -> ~ In STAR text -> ~ In LF text ->
  style = concise \/ style = detailed \/ style = human ->
  proseHtml text = text /\
  renderAiMessage renderJson proseHtml style {| sender := ai; text := text |}
  = SpanHtml text.
Proof.
  intros Hh Hs Hl Hst.
  assert (E : proseHtml text = text).
  { unfold proseHtml. rewrite (headings_plain text true Hh).
    rewrite (bolds_plain text Hs). now apply breaks_plain. }
  split; [exact E|].
  destruct Hst as [-> | [-> | ->]]; unfold renderAiMessage;
    cbn [sender Chat.text]; now rewrite E.
Qed.

End WithJsonRenderer.

Lemma prose_passes_markup_witness :
  let text := lit "<img src=x onerror=alert(1)>" in
  ~ In HASH text /\ ~ In STAR text /\ ~ In LF text /\
  (human = concise \/ human = detailed \/ human = human) /\
  renderAiMessage (fun t => Pre t) proseHtml human
                  {| sender := ai; text := text |}
  = SpanHtml text.
Proof.
  cbv zeta.
  assert (H1 : ~ In HASH (lit "<img src=x onerror=alert(1)>"))
    by (vm_compute; intuition discriminate).
  assert (H2 : ~ In STAR (lit "<img src=x onerror=alert(1)>"))
    by (vm_compute; intuition discriminate).
  assert (H3 : ~ In LF (lit "<img src=x onerror=alert(1)>"))
    by (vm_compute; intuition discriminate).
  split; [exact H1|]. split; [exact H2|]. split; [exact H3|].
  split; [right; right; reflexivity|].
  exact (proj2 (prose_passes_markup (fun t => Pre t)
                  (lit "<img src=x onerror=alert(1)>") human H1 H2 H3
                  (or_intror (or_intror eq_refl)))).
Defined.


(** X17. A reply that is one heading line (one or more hashes, any white
    space, then a title without line terminator and without "*" that starts
    with neither white space nor "#") becomes the trimmed title in bold; the
    hashes are gone. *)
Theorem prose_heading_bold (k : nat) (ws title : str) :
  Forall (fun c => isWhiteSpace c = true) ws ->
  (forall c, In c title -> isLineTerminator c = false) ->
  ~ In STAR title ->
  (forall c, hd_error title = Some c -> isWhiteSpace c = false /\ c <> HASH) ->
  proseHtml (repeat HASH (S k) ++ ws ++ title)
  = lit "<b>" ++ trim title ++ lit "</b>".
Proof.
  intros Hws Hlt Hstar Hhd. unfold proseHtml.
  change (repeat HASH (S k) ++ ws ++ title)
    with (HASH :: (repeat HASH k ++ ws ++ title)).
  cbn [headings]. rewrite N.eqb_refl. cbn [andb].
  rewrite (headings_hashes k ws title Hws Hlt Hhd).
  assert (Hb : ~ In STAR (bold (trim title))).
  { unfold bold. intros Hin.
    apply in_app_or in Hin as [Hin | Hin];
      [vm_compute in Hin; intuition discriminate|].
    apply in_app_or in Hin as [Hin | Hin];
      [apply Hstar; now apply In_trim |
       vm_compute in Hin; intuition discriminate]. }
  rewrite (bolds_plain _ Hb).
  apply breaks_plain. unfold bold. intros Hin.
  apply in_app_or in Hin as [Hin | Hin];
    [vm_compute in Hin; intuition discriminate|].
  apply in_app_or in Hin as [Hin | Hin];
    [apply In_trim in Hin; now specialize (Hlt LF Hin) |
     vm_compute in Hin; intuition discriminate].
Qed.

Lemma prose_heading_bold_witness :
  Forall (fun c => isWhiteSpace c = true) (lit " ") /\
  (forall c, In c (lit "Two rules ") -> isLineTerminator c = false) /\
  ~ In STAR (lit "Two rules ") /\
  (forall c, hd_error (lit "Two rules ") = Some c ->
             isWhiteSpace c = false /\ c <> HASH) /\
  proseHtml (lit "## Two rules ") = lit "<b>Two rules</b>".
Proof.
  assert (H1 : Forall (fun c => isWhiteSpace c = true) (lit " "))
    by (repeat constructor).
  assert (H2 : forall c, In c (lit "Two rules ") -> isLineTerminator c = false)
    by (intros c Hc; vm_compute in Hc;
        repeat (destruct Hc as [<- | Hc]; [reflexivity|]); destruct Hc).
  assert (H3 : ~ In STAR (lit "Two rules "))
    by (vm_compute; intuition discriminate).
  assert (H4 : forall c, hd_error (lit "Two rules ") = Some c ->
                         isWhiteSpace c = false /\ c <> HASH)
    by (intros c Hc; vm_compute in Hc; injection Hc as <-;
        split; [reflexivity | discriminate]).
  split; [exact H1|]. split; [exact H2|]. split; [exact H3|].
  split; [exact H4|].
  exact (prose_heading_bold 1 (lit " ") (lit "Two rules ") H1 H2 H3 H4).
Defined.

End ProseFacts.

(** ** Search navigation, both ways *)

Module SearchMore.
Import Js JsonPopup SearchFacts.

Lemma rem_small (a n : Z) : (0 <= a < n)%Z -> Z.rem a n = a.
Proof. intros H. rewrite Z.rem_mod_nonneg by lia. apply Z.mod_small. lia. Qed.

Lemma rem_wrap (a n : Z) : (0 < n)%Z -> (n <= a < 2 * n)%Z -> Z.rem a n = (a - n)%Z.
Proof.
  intros Hn H. rewrite Z.rem_mod_nonneg by lia.
  replace a with ((a - n) + 1 * n)%Z at 1 by lia.
  rewrite Z.mod_add by lia. apply Z.mod_small. lia.
Qed.

Lemma newIndex_next_prev (i : Z) (n : nat) :
  (0 <= i < Z.of_nat n)%Z ->
  newIndex PREV (newIndex NEXT i n) n = i /\
  newIndex NEXT (newIndex PREV i n) n = i.
Proof.
  intros H. unfold newIndex.
  assert (Hn : (0 < Z.of_nat n)%Z) by lia.
  split.
  - destruct (Z.eq_dec (i + 1) (Z.of_nat n)) as [E | E].
    + rewrite (rem_wrap (i + 1)) by lia.
      rewrite rem_small by lia. lia.
    + rewrite (rem_small (i + 1)) by lia.
      rewrite rem_wrap by lia. lia.
  - destruct (Z.eq_dec i 0) as [E | E].
    + rewrite (rem_small (i - 1 + Z.of_nat n)) by lia.
      rewrite rem_wrap by lia. lia.
    + rewrite (rem_wrap (i - 1 + Z.of_nat n)) by lia.
      rewrite rem_small by lia. lia.
Qed.

Lemma state_eta (s : State) :
  {| searchTerm := searchTerm s; currentMatchIndex := currentMatchIndex s |} = s.
Proof. now destruct s. Qed.

Section WithEngine.

Variable matchAll : str -> str -> result (list str).
Variable json : str.

Let step' := step matchAll json.

(** An arrow press either leaves the state alone or moves the index by
    [newIndex] among [n >= 1] matches. *)
Lemma step_navigate_cases (s : State) :
  (forall d, step' s (Navigate d) = s) \/
  exists n, totalMatches matchAll json s = Ok n /\ 1 <= n /\
            forall d' i,
              step' {| searchTerm := searchTerm s; currentMatchIndex := i |}
                    (Navigate d')
              = {| searchTerm := searchTerm s;
                   currentMatchIndex := newIndex d' i n |}.
Proof.
  unfold step', step, handleMatchNavigation, totalMatches.
  destruct (truthy json); simpl; [|now left].
  destruct (truthy (searchTerm s)); simpl; [|now left].
  destruct (matchAll (searchTerm s) json) as [ms|]; simpl; [|now left].
  destruct (Nat.eqb_spec (length ms) 0) as [E | E]; [now left|].
  right. exists (length ms). split; [reflexivity|]. split; [lia|].
  reflexivity.
Qed.

(** X18. NEXT and PREV undo each other: in every state the viewer reaches by
    term changes and arrow presses, pressing NEXT then PREV, or PREV then
    NEXT, leads back to the same state. *)
Theorem next_prev_inverse (es : list Event) :
  let s := run matchAll json initialState es in
  step' (step' s (Navigate NEXT)) (Navigate PREV) = s /\
  step' (step' s (Navigate PREV)) (Navigate NEXT) = s.
Proof.
  intros s.
  destruct (run_inRange matchAll json es initialState
                        (initial_inRange matchAll json)) as [H0 Hr].
  fold s in H0, Hr.
  destruct (step_navigate_cases s) as [E | [n [Ht [Hn Hnav]]]].
  - now rewrite !E.
  - pose proof (Hr n Ht Hn) as Hlt.
    destruct (newIndex_next_prev (currentMatchIndex s) n (conj H0 Hlt))
      as [E1 E2].
    rewrite <- (state_eta s) at 1 3.
    rewrite !Hnav, E1, E2. now rewrite state_eta.
Qed.

End WithEngine.

End SearchMore.
